(** * pybotvac/account.py: sessions, lazy caches and login

    A shallow embedding of [src/pybotvac/account.py] (the classes
    [BasicAuthProvider], [OAuthProvider], [Session] and [Account]) and the
    properties of its caching, error and header handling.

    Python objects that the module mutates ([Session]) are threaded through
    a state monad whose state survives a raised exception, as a Python
    object keeps the writes made before a [raise]. What the module does to
    the outside (HTTP requests, the file written by [get_map_image], the
    bytes drawn from [os.urandom], the calls of [generate_headers]) is
    recorded in a [World]. *)

From Stdlib Require Import ZArith List String Ascii Bool Arith Lia.
From Stdlib Require Import Strings.Byte.
Import ListNotations.
Local Open Scope string_scope.
Local Open Scope list_scope.

Set Implicit Arguments.
Set Warnings "-register-all".

(** ** Python values

    The values that reach the module from [response.json()] and from the
    caller: [None], booleans, integers, strings, lists and dicts with string
    keys. (JSON floats are left out.) *)

Inductive value : Type :=
| VNone
| VBool (b : bool)
| VInt (z : Z)
| VStr (s : string)
| VList (l : list value)
| VDict (d : list (string * value)).

(** A header mapping, [dict] of [str] to [str], in insertion order. *)
Definition Headers := list (string * string).

(** [requests.Response], as far as the module looks at it: the status that
    [raise_for_status] inspects, the body as [json()] parses it ([None] when
    the body is no JSON document) and the bytes of the [raw] stream. *)
Record Response : Type := mkResponse {
  status_code : Z;
  json_body : option value;
  raw : list byte
}.

Inductive exn : Type :=
| HTTPError (r : Response)
| ConnectionError
| KeyError (k : string)
| TypeError
| ValueError
| IndexError
| OSError.

Inductive result (A : Type) : Type :=
| Ok (a : A)
| Raise (e : exn).

Arguments Raise {A} e.

Inductive Method : Type := GET | POST.

(** One call of [requests.get] or [requests.post], with the keyword
    arguments the module passes. *)
Record Request : Type := mkRequest {
  method : Method;
  url : string;
  headers : option Headers;
  json : option value;
  stream : bool;
  timeout : option Z
}.

(** The request of [requests.get(url, headers=headers)]. *)
Definition get_request (u : string) (h : Headers) : Request :=
  mkRequest GET u (Some h) None false None.

(** The request of [requests.get(url, stream=True, timeout=10)]. *)
Definition stream_request (u : string) : Request :=
  mkRequest GET u None None true (Some 10%Z).

(** The request of [requests.post(url, json=body, headers=headers)]. *)
Definition post_request (u : string) (body : value) (h : Headers) : Request :=
  mkRequest POST u (Some h) (Some body) false None.

(** ** The state and exception monad *)

Definition M (S A : Type) : Type := S -> result A * S.

Definition ret {S A : Type} (a : A) : M S A := fun s => (Ok a, s).

Definition raise {S A : Type} (e : exn) : M S A := fun s => (Raise e, s).

Definition bind {S A B : Type} (m : M S A) (k : A -> M S B) : M S B :=
  fun s => match m s with
           | (Ok a, s') => k a s'
           | (Raise e, s') => (Raise e, s')
           end.

Definition lift {S A : Type} (r : result A) : M S A := fun s => (r, s).

Declare Scope py_scope.
Delimit Scope py_scope with py.
Notation "x <- m ;; k" := (bind m (fun x => k))
  (at level 100, m at next level, right associativity) : py_scope.
Notation "m ;; k" := (bind m (fun _ => k))
  (at level 100, right associativity) : py_scope.
Local Open Scope py_scope.

(** [for x in l: body x] *)
Fixpoint for_each {S A : Type} (l : list A) (body : A -> M S unit) : M S unit :=
  match l with
  | [] => ret tt
  | x :: l' => body x ;; for_each l' body
  end.

(** ** Operations of Python on values *)

(** [iter(v)], as the [for] statement calls it. *)
Definition py_iter (v : value) : result (list value) :=
  match v with
  | VList l => Ok l
  | VDict d => Ok (map (fun kv => VStr (fst kv)) d)
  | VStr s => Ok (map (fun c => VStr (String c EmptyString)) (list_ascii_of_string s))
  | _ => Raise TypeError
  end.

Fixpoint lookup {A : Type} (k : string) (d : list (string * A)) : option A :=
  match d with
  | [] => None
  | (k', v) :: d' => if String.eqb k k' then Some v else lookup k d'
  end.

(** [v[k]] for a string [k]. *)
Definition getitem (v : value) (k : string) : result value :=
  match v with
  | VDict d => match lookup k d with
               | Some x => Ok x
               | None => Raise (KeyError k)
               end
  | _ => Raise TypeError
  end.

(** Whether [hash(v)] succeeds. *)
Definition hashable (v : value) : bool :=
  match v with
  | VList _ | VDict _ => false
  | _ => true
  end.

(** [a == b] on hashable values, as a dict compares keys ([True == 1]). *)
Definition key_eqb (a b : value) : bool :=
  match a, b with
  | VNone, VNone => true
  | VStr s, VStr t => String.eqb s t
  | VBool x, VBool y => Bool.eqb x y
  | VInt x, VInt y => Z.eqb x y
  | VBool x, VInt y => Z.eqb (if x then 1 else 0) y
  | VInt x, VBool y => Z.eqb x (if y then 1 else 0)
  | _, _ => false
  end.

(** [d.update({k: v})]: an entry with an equal key keeps its place and its
    key and takes the new value, a new key goes last. *)
Fixpoint dict_update (k v : value) (d : list (value * value)) : list (value * value) :=
  match d with
  | [] => [(k, v)]
  | (k', v') :: d' =>
      if key_eqb k' k then (k', v) :: d' else (k', v') :: dict_update k v d'
  end.

(** [bool(dest_path)] for [None] or a string. *)
Definition truthy (p : option string) : bool :=
  match p with
  | None => false
  | Some EmptyString => false
  | Some _ => true
  end.

(** ** Strings: [split], [rsplit], [os.path.join], [binascii.hexlify] *)

(** The text before the first [sep] and, when there is one, the text after it. *)
Fixpoint break_at (sep : ascii) (s : list ascii) : list ascii * option (list ascii) :=
  match s with
  | [] => ([], None)
  | c :: s' =>
      if Ascii.eqb c sep then ([], Some s')
      else let (pre, rest) := break_at sep s' in (c :: pre, rest)
  end.

(** [s.split(sep, n)] on character lists. *)
Fixpoint splitn (sep : ascii) (n : nat) (s : list ascii) : list (list ascii) :=
  match n with
  | O => [s]
  | S n' => match break_at sep s with
            | (pre, None) => [pre]
            | (pre, Some rest) => pre :: splitn sep n' rest
            end
  end.

(** [s.split(sep)] *)
Definition split (sep : ascii) (s : string) : list string :=
  map string_of_list_ascii
      (splitn sep (String.length s) (list_ascii_of_string s)).

(** [s.rsplit(sep, n)] *)
Definition rsplit (sep : ascii) (n : nat) (s : string) : list string :=
  rev (map (fun p => string_of_list_ascii (rev p))
           (splitn sep n (rev (list_ascii_of_string s)))).

(** [l[i]] on a list *)
Definition index {A : Type} (l : list A) (i : nat) : result A :=
  match nth_error l i with
  | Some x => Ok x
  | None => Raise IndexError
  end.

Definition starts_with_slash (s : string) : bool :=
  match s with
  | String c _ => Ascii.eqb c "/"
  | EmptyString => false
  end.

Fixpoint ends_with_slash (s : string) : bool :=
  match s with
  | EmptyString => false
  | String c EmptyString => Ascii.eqb c "/"
  | String _ s' => ends_with_slash s'
  end.

(** [os.path.join(a, b)] of [posixpath]. *)
Definition os_path_join (a b : string) : string :=
  if starts_with_slash b then b
  else if (String.eqb a "" || ends_with_slash a)%bool then a ++ b
  else a ++ "/" ++ b.

Definition hex_digit (n : nat) : ascii :=
  nth n (list_ascii_of_string "0123456789abcdef") "0"%char.

(** [binascii.hexlify(bs).decode('utf8')] *)
Definition hexlify (bs : list byte) : string :=
  string_of_list_ascii
    (flat_map (fun b => [hex_digit (Byte.to_nat b / 16); hex_digit (Byte.to_nat b mod 16)]) bs).

Definition is_hex (c : ascii) : bool :=
  existsb (Ascii.eqb c) (list_ascii_of_string "0123456789abcdef").

(** The place of a character in a list of characters. *)
Fixpoint position (c : ascii) (l : list ascii) : option nat :=
  match l with
  | [] => None
  | x :: l' => if Ascii.eqb c x then Some 0 else option_map S (position c l')
  end.

(** The value of a hexadecimal digit, as [binascii.unhexlify] reads it:
    lower case or upper case. *)
Definition hex_value (c : ascii) : option nat :=
  match position c (list_ascii_of_string "0123456789abcdef") with
  | Some n => Some n
  | None => option_map (Nat.add 10) (position c (list_ascii_of_string "ABCDEF"))
  end.

(** The byte that two hexadecimal digits stand for. *)
Definition unhex_pair (hi lo : ascii) : option byte :=
  match hex_value hi, hex_value lo with
  | Some h, Some l => Byte.of_nat (16 * h + l)
  | _, _ => None
  end.

(** [binascii.unhexlify(s)], the decoding of [hexlify]; [None] where Python
    raises. The module does not call it: it says which bytes a token
    stands for. *)
Fixpoint unhexlify (s : string) : option (list byte) :=
  match s with
  | EmptyString => Some []
  | String _ EmptyString => None
  | String hi (String lo s') =>
      match unhex_pair hi lo, unhexlify s' with
      | Some b, Some bs => Some (b :: bs)
      | _, _ => None
      end
  end.

(** ** The authentication providers *)

Inductive AuthProvider : Type :=
| BasicAuthProvider (access_token : value)
| OAuthProvider (oauth_token : value).

(** Modelled from the spec: the [Robot] collaborator of [robot.py], which is
    not among the sources. The spec gives its constructor
    [Robot(name, serial, secret, traits, auth_provider)] and the attribute
    [serial]; the constructor is taken to store its arguments. [robot_id] is
    the identity of the Python object. *)
Record Robot : Type := mkRobot {
  robot_id : nat;
  name : value;
  serial : value;
  secret : value;
  traits : value;
  robot_auth_provider : AuthProvider
}.

(** [Session] *)
Record Session : Type := mkSession {
  auth_provider : AuthProvider;
  _robots : list Robot;
  robot_serials : list (value * value);
  _maps : list (value * value);
  _headers : Headers;
  _persistent_maps : list (value * value)
}.

Definition set_robots (rs : list Robot) (s : Session) : Session :=
  mkSession (auth_provider s) rs (robot_serials s) (_maps s) (_headers s)
            (_persistent_maps s).

Definition set_maps (m : list (value * value)) (s : Session) : Session :=
  mkSession (auth_provider s) (_robots s) (robot_serials s) m (_headers s)
            (_persistent_maps s).

(** ** A small account, for examples

    A concrete environment on which the theorems below are run: the
    functions of the libraries, a remote side with three robots and a
    session. *)

Definition demo_urljoin (base rel : string) : string := base ++ rel.

Definition demo_str_of (v : value) : string := "None".

(** The requests library takes the statuses from 400 to 599 for errors. *)
Definition demo_error_status (c : Z) : bool := ((400 <=? c) && (c <? 600))%Z.

(** Robots compared as Python compares objects of a class that defines no
    [__eq__]: by identity. *)
Definition demo_robot_eq (a b : Robot) : bool :=
  Nat.eqb (robot_id a) (robot_id b).

Definition demo_entropy (n : nat) : byte :=
  match Byte.of_nat (n mod 256) with
  | Some b => b
  | None => x00
  end.

Definition demo_openable (path : string) : bool := true.

Definition demo_persistent_maps (r : Robot) : M unit value := ret VNone.

Definition device (n s k : string) : value :=
  VDict [("name", VStr n); ("serial", VStr s); ("secret_key", VStr k);
         ("traits", VList [])].

Definition demo_image_url : string :=
  "https://example.com/maps/42/image.png?sig=1".

(** The remote side; the maps of the second robot and the image are served
    with the status [second]. *)
Definition demo_server (second : Z) (h : list Request) (q : Request)
  : option Response :=
  if String.eqb (url q) "https://beehive.neatocloud.com/users/me/robots" then
    Some (mkResponse 200
            (Some (VList [device "R1" "S1" "K1"; device "R2" "S2" "K2";
                          device "R3" "S3" "K3"])) [])
  else if String.eqb (url q) "https://beehive.neatocloud.com/users/me/robots/S1/maps" then
    Some (mkResponse 200 (Some (VList [VStr "map1"])) [])
  else if String.eqb (url q) "https://beehive.neatocloud.com/users/me/robots/S2/maps" then
    Some (mkResponse second (Some (VList [VStr "map2"])) [])
  else if String.eqb (url q) "https://beehive.neatocloud.com/users/me/robots/S3/maps" then
    Some (mkResponse 200 (Some (VList [VStr "map3"])) [])
  else if String.eqb (url q) "https://beehive.neatocloud.com/sessions" then
    Some (mkResponse 201 (Some (VDict [("access_token", VStr "abc")])) [])
  else if String.eqb (url q) demo_image_url then
    Some (mkResponse second None [x89; x50; x4e; x47])
  else None.

(** An account with no robot. *)
Definition empty_account_server (h : list Request) (q : Request)
  : option Response :=
  Some (mkResponse 200 (Some (VList [])) []).

Definition demo_provider : AuthProvider := OAuthProvider (VStr "tok").

Definition demo_headers : Headers :=
  [("Accept", "application/vnd.neato.beehive.v1+json");
   ("Authorization", "Bearer tok")].

(** The session as [login_oauth("tok")] returns it. *)
Definition demo_session : Session :=
  mkSession demo_provider [] [] [] demo_headers [].

Definition demo_robot (id : nat) (n s k : string) : Robot :=
  mkRobot id (VStr n) (VStr s) (VStr k) (VList []) demo_provider.

(** The same session once its robots are fetched. *)
Definition demo_session_fetched : Session :=
  mkSession demo_provider
            [demo_robot 0 "R1" "S1" "K1"; demo_robot 1 "R2" "S2" "K2";
             demo_robot 2 "R3" "S3" "K3"]
            [] [] demo_headers [].

(** A remote side that rejects every request. *)
Definition rejecting_server (h : list Request) (q : Request) : option Response :=
  Some (mkResponse 401 None []).

(** A remote side that rejects the first request it gets and serves the
    later ones. *)
Definition recovering_server (h : list Request) (q : Request) : option Response :=
  match h with
  | [] => Some (mkResponse 503 None [])
  | _ :: _ => demo_server 200 h q
  end.


(** Robots compared by serial. *)
Definition demo_robot_eq_serial (a b : Robot) : bool :=
  key_eqb (serial a) (serial b).

(** The fetched session with an entry in [_maps] for a robot that is gone. *)
Definition demo_session_stale : Session :=
  mkSession demo_provider (_robots demo_session_fetched) []
            [(VStr "S9", VList [VStr "old"])] demo_headers [].

(** ** The environment of the module

    What account.py takes from elsewhere is a parameter of the development:
    the library functions whose rules are not in the sources, the remote
    service, the operating system and the [Robot] collaborator. *)

Section Account.

(** [urllib.parse.urljoin] *)
Variable urljoin : string -> string -> string.

(** [str(v)] for a value that is not already a string. *)
Variable str_of : value -> string.

(** Whether [Response.raise_for_status] of the requests library takes a
    status code for an HTTP error. *)
Variable error_status : Z -> bool.

(** [a == b] on [Robot] objects, the equality under which a [set] keeps one
    of two equal elements. *)
Variable robot_eq : Robot -> Robot -> bool.

(** The remote side: the answer to a request, given the requests sent
    before it; [None] when the transport fails. *)
Variable server : list Request -> Request -> option Response.

(** The bytes that [os.urandom] hands out, in the order it hands them out. *)
Variable entropy : nat -> byte.

(** Whether [open(path, 'wb')] succeeds. *)
Variable openable : string -> bool.

(** The state of the [Robot] collaborator and of whatever it talks to, and
    its read accessor [Robot.persistent_maps]. *)
Variable Outside : Type.
Variable robot_persistent_maps : Robot -> M Outside value.

(** What the module has done to its surroundings. *)
Record World : Type := mkWorld {
  sent : list Request;
  disk : list (string * list byte);
  drawn : nat;
  header_calls : nat;
  next_id : nat;
  outside : Outside
}.

(** The world before the module did anything. *)
Definition fresh_world (o : Outside) : World := mkWorld [] [] 0 0 0 o.

(** [str(v)], and so ['{}'.format(v)]. *)
Definition py_str (v : value) : string :=
  match v with
  | VStr s => s
  | _ => str_of v
  end.

(** *** Effects on the world *)

Definition send (q : Request) : M World Response :=
  fun w =>
    let w' := mkWorld (sent w ++ [q]) (disk w) (drawn w) (header_calls w)
                      (next_id w) (outside w) in
    match server (sent w) q with
    | Some r => (Ok r, w')
    | None => (Raise ConnectionError, w')
    end.

(** [requests.get(url, headers=headers)] *)
Definition requests_get (u : string) (h : Headers) : M World Response :=
  send (get_request u h).

(** [requests.get(url, stream=True, timeout=10)] *)
Definition requests_get_stream (u : string) : M World Response :=
  send (stream_request u).

(** [requests.post(url, json=body, headers=headers)] *)
Definition requests_post (u : string) (body : value) (h : Headers) : M World Response :=
  send (post_request u body h).

(** [resp.raise_for_status()] *)
Definition raise_for_status (r : Response) : result unit :=
  if error_status (status_code r) then Raise (HTTPError r) else Ok tt.

(** [resp.json()] *)
Definition resp_json (r : Response) : result value :=
  match json_body r with
  | Some v => Ok v
  | None => Raise ValueError
  end.

(** [os.urandom(n)] *)
Definition os_urandom (n : nat) : M World (list byte) :=
  fun w => (Ok (map entropy (seq (drawn w) n)),
            mkWorld (sent w) (disk w) (drawn w + n) (header_calls w)
                    (next_id w) (outside w)).

(** [with open(dest, 'wb') as data: shutil.copyfileobj(src, data)] *)
Definition write_file (dest : string) (content : list byte) : M World unit :=
  fun w =>
    if openable dest
    then (Ok tt, mkWorld (sent w) ((dest, content) :: disk w) (drawn w)
                         (header_calls w) (next_id w) (outside w))
    else (Raise OSError, w).

(** [Robot(name=.., serial=.., secret=.., traits=.., auth_provider=..)]:
    a new object. *)
Definition new_Robot (n s k t : value) (ap : AuthProvider) : M World Robot :=
  fun w => (Ok (mkRobot (next_id w) n s k t ap),
            mkWorld (sent w) (disk w) (drawn w) (header_calls w)
                    (S (next_id w)) (outside w)).

Definition in_outside {A : Type} (m : M Outside A) : M World A :=
  fun w => let (r, o) := m (outside w) in
           (r, mkWorld (sent w) (disk w) (drawn w) (header_calls w) (next_id w) o).

(** *** [BasicAuthProvider.generate_headers], [OAuthProvider.generate_headers] *)

Definition headers_of (ap : AuthProvider) : Headers :=
  match ap with
  | BasicAuthProvider access_token =>
      [("Accept", "application/vnd.neato.nucleo.v1");
       ("Authorization", ("Token token=" ++ py_str access_token)%string)]
  | OAuthProvider oauth_token =>
      [("Accept", "application/vnd.neato.beehive.v1+json");
       ("Authorization", ("Bearer " ++ py_str oauth_token)%string)]
  end.

Definition generate_headers (ap : AuthProvider) : M World Headers :=
  fun w => (Ok (headers_of ap),
            mkWorld (sent w) (disk w) (drawn w) (S (header_calls w))
                    (next_id w) (outside w)).

(** *** [Session] *)

(** [Session.__init__] *)
Definition Session_init (ap : AuthProvider) : M World Session :=
  h <- generate_headers ap ;;
  ret (mkSession ap [] [] [] h []).

(** A method runs on [self] and the world. *)
Definition Self : Type := (Session * World)%type.

(** [self.f] *)
Definition read {A : Type} (f : Session -> A) : M Self A :=
  fun st => (Ok (f (fst st)), st).

Definition update (f : Session -> Session) : M Self unit :=
  fun st => (Ok tt, (f (fst st), snd st)).

Definition in_world {A : Type} (m : M World A) : M Self A :=
  fun st => let (r, w) := m (snd st) in (r, (fst st, w)).

Definition ENDPOINT : string := "https://beehive.neatocloud.com/".

(** [s.add(r)]: nothing when an equal element is there. The list holds the
    elements of the set; Python iterates a set in the order of its hash
    table, which the list does not mean to tell: what is stated of a set
    below is stated of its elements and their number, or for whatever
    order the set is iterated in. *)
Definition set_add (r : Robot) (s : list Robot) : list Robot :=
  if existsb (robot_eq r) s then s else s ++ [r].

Definition is_empty {A : Type} (l : list A) : bool :=
  match l with
  | [] => true
  | _ => false
  end.

(** The body of the loop of [refresh_robots]. *)
Definition add_robot (robot : value) : M Self unit :=
  n <- lift (getitem robot "name") ;;
  s <- lift (getitem robot "serial") ;;
  k <- lift (getitem robot "secret_key") ;;
  t <- lift (getitem robot "traits") ;;
  ap <- read auth_provider ;;
  r <- in_world (new_Robot n s k t ap) ;;
  update (fun self => set_robots (set_add r (_robots self)) self).

Definition robots_url : string := urljoin ENDPOINT "users/me/robots".

Definition refresh_robots : M Self unit :=
  h <- read _headers ;;
  resp <- in_world (requests_get robots_url h) ;;
  lift (raise_for_status resp) ;;
  body <- lift (resp_json resp) ;;
  items <- lift (py_iter body) ;;
  for_each items add_robot.

(** The property [robots]. *)
Definition robots : M Self (list Robot) :=
  rs <- read _robots ;;
  (if is_empty rs then refresh_robots else ret tt) ;;
  read _robots.

Definition maps_url (r : Robot) : string :=
  urljoin ENDPOINT ("users/me/robots/" ++ py_str (serial r) ++ "/maps").

(** The body of the loop of [refresh_maps]. *)
Definition fetch_maps (robot : Robot) : M Self unit :=
  h <- read _headers ;;
  resp2 <- in_world (requests_get (maps_url robot) h) ;;
  lift (raise_for_status resp2) ;;
  j <- lift (resp_json resp2) ;;
  if hashable (serial robot)
  then update (fun self => set_maps (dict_update (serial robot) j (_maps self)) self)
  else raise TypeError.

Definition refresh_maps : M Self unit :=
  rs <- robots ;;
  for_each rs fetch_maps.

(** The property [maps]. *)
Definition maps : M Self (list (value * value)) :=
  refresh_maps ;;
  read _maps.

(** [image.raw] as [get_map_image] returns it: the stream of a response and
    the bytes not yet read from it. *)
Record RawStream : Type := mkRawStream {
  stream_of : Response;
  unread : list byte
}.

(** The static method [get_map_image]. *)
Definition get_map_image (u : string) (dest_path : option string) : M World RawStream :=
  image <- requests_get_stream u ;;
  if truthy dest_path then
    a <- lift (index (rsplit "/" 2 u) 1) ;;
    b <- lift (index (rsplit "/" 1 u) 1) ;;
    let image_url := (a ++ "-" ++ b)%string in
    image_filename <- lift (index (split "?" image_url) 0) ;;
    let dest := os_path_join (match dest_path with Some p => p | None => "" end)
                             image_filename in
    lift (raise_for_status image) ;;
    write_file dest (raw image) ;;
    ret (mkRawStream image [])
  else
    ret (mkRawStream image (raw image)).

(** The dict comprehension of [persistent_maps], one robot at a time. *)
Fixpoint collect_persistent (rs : list Robot) (acc : list (value * value))
  : M Self (list (value * value)) :=
  match rs with
  | [] => ret acc
  | robot :: rs' =>
      v <- in_world (in_outside (robot_persistent_maps robot)) ;;
      if hashable (serial robot)
      then collect_persistent rs' (dict_update (serial robot) v acc)
      else raise TypeError
  end.

(** The property [persistent_maps]. *)
Definition persistent_maps : M Self (list (value * value)) :=
  rs <- robots ;;
  collect_persistent rs [].

(** *** [Account] *)

Definition login_basic (email password : string) : M World Session :=
  let headers := [("Accept", "application/vnd.neato.nucleo.v1")] in
  nonce <- os_urandom 64 ;;
  response <- requests_post (urljoin ENDPOINT "sessions")
                (VDict [("email", VStr email);
                        ("password", VStr password);
                        ("platform", VStr "ios");
                        ("token", VStr (hexlify nonce))])
                headers ;;
  lift (raise_for_status response) ;;
  body <- lift (resp_json response) ;;
  access_token <- lift (getitem body "access_token") ;;
  Session_init (BasicAuthProvider access_token).

Definition login_oauth (oauth_token : value) : M World Session :=
  Session_init (OAuthProvider oauth_token).


(** *** The life of a session

    What a caller can do with a session once it is built, and a sequence of
    such calls. A caller may catch what a call raises and go on, so the
    sequence runs on whatever the call before left behind. *)

Inductive Call : Type :=
| CallRobots
| CallMaps
| CallRefreshRobots
| CallRefreshMaps
| CallPersistentMaps
| CallGetMapImage (u : string) (dest_path : option string).

Definition call (c : Call) : M Self unit :=
  match c with
  | CallRobots => robots ;; ret tt
  | CallMaps => maps ;; ret tt
  | CallRefreshRobots => refresh_robots
  | CallRefreshMaps => refresh_maps
  | CallPersistentMaps => persistent_maps ;; ret tt
  | CallGetMapImage u dest_path => in_world (get_map_image u dest_path) ;; ret tt
  end.

Fixpoint calls (cs : list Call) (st : Self) : Self :=
  match cs with
  | [] => st
  | c :: cs' => calls cs' (snd (call c st))
  end.

(** ** Properties *)

(** *** Strings *)

Lemma length_string_of_list_ascii (l : list ascii) :
  String.length (string_of_list_ascii l) = List.length l.
Proof.
  induction l as [|c l IH]; simpl; congruence.
Qed.

Lemma hex_digit_is_hex (n : nat) : n < 16 -> is_hex (hex_digit n) = true.
Proof.
  intros H.
  do 16 (destruct n as [|n]; [reflexivity|]).
  lia.
Qed.

Lemma hexlify_length (bs : list byte) :
  String.length (hexlify bs) = 2 * List.length bs.
Proof.
  unfold hexlify. rewrite length_string_of_list_ascii.
  induction bs as [|b bs IH]; [reflexivity|].
  cbn [flat_map List.length app]. rewrite IH. cbn [List.length]. lia.
Qed.

Lemma hexlify_hex (bs : list byte) :
  forallb is_hex (list_ascii_of_string (hexlify bs)) = true.
Proof.
  unfold hexlify. rewrite list_ascii_of_string_of_list_ascii.
  induction bs as [|b bs IH]; [reflexivity|].
  cbn [flat_map app forallb]. rewrite IH.
  assert (Hb : Byte.to_nat b < 256) by (destruct b; vm_compute; lia).
  rewrite !hex_digit_is_hex; [reflexivity | |].
  - apply Nat.mod_upper_bound. lia.
  - apply Nat.Div0.div_lt_upper_bound. lia.
Qed.




Lemma unhex_pair_hex_digits (b : byte) :
  unhex_pair (hex_digit (Byte.to_nat b / 16)) (hex_digit (Byte.to_nat b mod 16))
  = Some b.
Proof. destruct b; vm_compute; reflexivity. Qed.

(** Decoding gives back the bytes that were encoded. *)
Lemma unhexlify_hexlify (bs : list byte) : unhexlify (hexlify bs) = Some bs.
Proof.
  induction bs as [|b bs IH]; [reflexivity|].
  change (hexlify (b :: bs))
    with (String (hex_digit (Byte.to_nat b / 16))
            (String (hex_digit (Byte.to_nat b mod 16)) (hexlify bs))).
  cbn [unhexlify]. rewrite unhex_pair_hex_digits, IH. reflexivity.
Qed.

Lemma hexlify_injective (bs bs' : list byte) :
  hexlify bs = hexlify bs' -> bs = bs'.
Proof.
  intros H. apply (f_equal unhexlify) in H.
  rewrite !unhexlify_hexlify in H. inversion H. reflexivity.
Qed.

(** Two stretches of a stream hold the same bytes when they agree place
    by place. *)
Lemma map_seq_same (A : Type) (f : nat -> A) (n : nat) :
  forall a b,
    map f (seq a n) = map f (seq b n) <->
    (forall i, i < n -> f (a + i) = f (b + i)).
Proof.
  induction n as [|n IH]; intros a b; cbn [seq map].
  - split; [intros _ i Hi; lia | reflexivity].
  - split.
    + intros H i Hi. inversion H as [[H0 Hrest]].
      destruct i as [|i].
      * rewrite !Nat.add_0_r. exact H0.
      * rewrite <- !Nat.add_succ_comm. apply (proj1 (IH (S a) (S b)) Hrest). lia.
    + intros H. f_equal.
      * specialize (H 0 (Nat.lt_0_succ n)). rewrite !Nat.add_0_r in H. exact H.
      * apply (proj2 (IH (S a) (S b))). intros i Hi.
        rewrite !Nat.add_succ_comm. apply H. lia.
Qed.

(** *** [split] and [rsplit] *)

Lemma list_ascii_of_string_app (s1 s2 : string) :
  list_ascii_of_string (s1 ++ s2)
  = list_ascii_of_string s1 ++ list_ascii_of_string s2.
Proof.
  induction s1 as [|c s1 IH]; simpl; [reflexivity|].
  rewrite IH. reflexivity.
Qed.

Lemma break_at_found (sep : ascii) (s : list ascii) :
  In sep s -> exists pre rest, break_at sep s = (pre, Some rest).
Proof.
  induction s as [|c s IH]; intros H; [contradiction|].
  simpl. destruct (Ascii.eqb c sep) eqn:E.
  - eexists; eexists; reflexivity.
  - destruct H as [H|H].
    + subst c. rewrite Ascii.eqb_refl in E. discriminate.
    + destruct (IH H) as (pre & rest & Hb). rewrite Hb.
      eexists; eexists; reflexivity.
Qed.

Lemma break_at_pre (sep : ascii) (s : list ascii) :
  forall pre rest, break_at sep s = (pre, rest) ->
                   ~ In sep pre /\ (forall c, In c pre -> In c s).
Proof.
  induction s as [|c s IH]; intros pre rest H; simpl in H.
  - inversion H; subst. split; [intros []| intros c []].
  - destruct (Ascii.eqb c sep) eqn:E.
    + inversion H; subst. split; [intros []| intros x []].
    + destruct (break_at sep s) as [pre' rest'] eqn:Hb.
      inversion H; subst.
      destruct (IH pre' rest eq_refl) as [Hno Hsub].
      split.
      * intros [Hc|Hin]; [|exact (Hno Hin)].
        subst c. rewrite Ascii.eqb_refl in E. discriminate.
      * intros x [Hx|Hx]; [left; exact Hx | right; apply Hsub; exact Hx].
Qed.

Lemma break_at_rest (sep : ascii) (s : list ascii) :
  forall pre rest, break_at sep s = (pre, Some rest) ->
                   forall c, In c rest -> In c s.
Proof.
  induction s as [|c s IH]; intros pre rest H x Hx; simpl in H.
  - discriminate.
  - destruct (Ascii.eqb c sep).
    + inversion H; subst. right. exact Hx.
    + destruct (break_at sep s) as [pre' rest'] eqn:Hb.
      inversion H; subst. right. apply (IH pre' rest eq_refl). exact Hx.
Qed.

Lemma splitn_nonempty (sep : ascii) (n : nat) (s : list ascii) :
  splitn sep n s <> [].
Proof.
  destruct n; simpl; [discriminate|].
  destruct (break_at sep s) as [pre [rest|]]; discriminate.
Qed.

(** Every part but the last holds no separator. *)
Lemma splitn_inner_no_sep (sep : ascii) (n : nat) :
  forall (s : list ascii) (i : nat) (p : list ascii),
    nth_error (splitn sep n s) i = Some p ->
    S i < List.length (splitn sep n s) ->
    ~ In sep p.
Proof.
  induction n as [|n IH]; intros s i p Hp Hi; simpl in *.
  - lia.
  - destruct (break_at sep s) as [pre [rest|]] eqn:Hb; simpl in *.
    + destruct i as [|i]; simpl in Hp.
      * inversion Hp; subst. exact (proj1 (break_at_pre _ _ Hb)).
      * apply (IH rest i p Hp). lia.
    + lia.
Qed.

(** The characters of every part come from the text. *)
Lemma splitn_parts_sub (sep : ascii) (n : nat) :
  forall (s p : list ascii),
    In p (splitn sep n s) -> forall c, In c p -> In c s.
Proof.
  induction n as [|n IH]; intros s p Hp c Hc; simpl in Hp.
  - destruct Hp as [Hp|[]]. subst p. exact Hc.
  - destruct (break_at sep s) as [pre [rest|]] eqn:Hb; simpl in Hp.
    + destruct Hp as [Hp|Hp].
      * subst p. exact (proj2 (break_at_pre _ _ Hb) c Hc).
      * apply (break_at_rest _ _ Hb). apply (IH rest p Hp c Hc).
    + destruct Hp as [Hp|[]]. subst p.
      exact (proj2 (break_at_pre _ _ Hb) c Hc).
Qed.

Lemma splitn_two (sep : ascii) (n : nat) (s : list ascii) :
  In sep s -> 2 <= List.length (splitn sep (S n) s).
Proof.
  intros H. destruct (break_at_found _ _ H) as (pre & rest & Hb).
  simpl. rewrite Hb. simpl.
  pose proof (@splitn_nonempty sep n rest) as Hne.
  destruct (splitn sep n rest); [contradiction | simpl; lia].
Qed.

Definition no_slash (s : string) : Prop :=
  ~ In "/"%char (list_ascii_of_string s).

(** The part at index 1 of [u.rsplit('/', n)] is there when [u] holds a
    slash, and holds none. *)
Lemma rsplit_second (n : nat) (u : string) :
  In "/"%char (list_ascii_of_string u) ->
  exists a, index (rsplit "/" (S n) u) 1 = Ok a /\ no_slash a.
Proof.
  intros Hin. unfold rsplit, index.
  set (L := splitn "/" (S n) (rev (list_ascii_of_string u))).
  assert (Hlen : 2 <= List.length L).
  { apply splitn_two. apply in_rev. rewrite rev_involutive. exact Hin. }
  set (f := fun p : list ascii => string_of_list_ascii (rev p)).
  destruct (nth_error (rev (map f L)) 1) as [a|] eqn:Ha.
  - exists a. split; [reflexivity|].
    rewrite nth_error_rev in Ha.
    rewrite length_map in Ha.
    destruct (1 <? List.length L)%nat eqn:E; [|discriminate].
    rewrite nth_error_map in Ha.
    destruct (nth_error L (List.length L - 2)) as [p|] eqn:Hp; [|discriminate].
    simpl in Ha. inversion Ha; subst a.
    unfold no_slash, f. rewrite list_ascii_of_string_of_list_ascii.
    intros Hc. apply in_rev in Hc. revert Hc.
    apply (@splitn_inner_no_sep "/"%char (S n) (rev (list_ascii_of_string u))
                                (List.length L - 2) p Hp).
    fold L. lia.
  - apply nth_error_None in Ha. rewrite length_rev, length_map in Ha. lia.
Qed.

(** The part at index 0 of [t.split('?')] is there, and holds no slash
    when [t] holds none. *)
Lemma split_first (t : string) :
  no_slash t -> exists fn, index (split "?" t) 0 = Ok fn /\ no_slash fn.
Proof.
  intros Hno. unfold split, index.
  set (L := splitn "?" (String.length t) (list_ascii_of_string t)).
  pose proof (@splitn_nonempty "?"%char (String.length t) (list_ascii_of_string t)) as Hne.
  fold L in Hne.
  assert (Hsub : forall p, In p L -> forall c, In c p -> In c (list_ascii_of_string t))
    by (intros p; apply splitn_parts_sub).
  destruct L as [|p L']; [contradiction|].
  simpl. eexists. split; [reflexivity|].
  unfold no_slash. rewrite list_ascii_of_string_of_list_ascii.
  intros Hc. apply Hno. apply (Hsub p); [left; reflexivity | exact Hc].
Qed.

Lemma no_slash_join (a b : string) :
  no_slash a -> no_slash b -> no_slash (a ++ "-" ++ b).
Proof.
  unfold no_slash. intros Ha Hb.
  rewrite !list_ascii_of_string_app. intros H.
  apply in_app_or in H. destruct H as [H|H]; [exact (Ha H)|].
  apply in_app_or in H. destruct H as [H|H]; [|exact (Hb H)].
  simpl in H. destruct H as [H|[]]. discriminate H.
Qed.

Lemma no_slash_start (fn : string) : no_slash fn -> starts_with_slash fn = false.
Proof.
  unfold no_slash. destruct fn as [|c fn]; simpl; [reflexivity|].
  intros H. destruct (Ascii.eqb c "/") eqn:E; [|reflexivity].
  apply Ascii.eqb_eq in E. subst c. exfalso. apply H. left. reflexivity.
Qed.

(** *** Relations that every step of a computation keeps *)

Definition preserves {S A : Type} (R : S -> S -> Prop) (m : M S A) : Prop :=
  forall s, R s (snd (m s)).

Section Preserves.

Variables (S : Type) (R : S -> S -> Prop).
Hypothesis R_refl : forall s, R s s.
Hypothesis R_trans : forall s1 s2 s3, R s1 s2 -> R s2 s3 -> R s1 s3.

Lemma preserves_ret (A : Type) (a : A) : preserves R (ret a).
Proof. intros s. apply R_refl. Qed.

Lemma preserves_raise (A : Type) (e : exn) : preserves R (raise (A:=A) e).
Proof. intros s. apply R_refl. Qed.

Lemma preserves_lift (A : Type) (r : result A) : preserves R (lift r).
Proof. intros s. apply R_refl. Qed.

Lemma preserves_bind (A B : Type) (m : M S A) (k : A -> M S B) :
  preserves R m -> (forall a, preserves R (k a)) -> preserves R (bind m k).
Proof.
  intros Hm Hk s. unfold bind.
  specialize (Hm s). destruct (m s) as [[a|e] s']; simpl in Hm.
  - apply R_trans with s'; [assumption | apply Hk].
  - assumption.
Qed.

Lemma preserves_for_each (A : Type) (l : list A) (body : A -> M S unit) :
  (forall x, preserves R (body x)) -> preserves R (for_each l body).
Proof.
  intros Hbody. induction l as [|x l IH]; simpl.
  - apply preserves_ret.
  - apply preserves_bind; [apply Hbody | intros _; exact IH].
Qed.

End Preserves.

Lemma preserves_read (R : Self -> Self -> Prop) (A : Type) (f : Session -> A) :
  (forall st, R st st) -> preserves R (read f).
Proof. intros Hrefl st. apply Hrefl. Qed.

Lemma preserves_update (R : Self -> Self -> Prop) (f : Session -> Session) :
  (forall s w, R (s, w) (f s, w)) -> preserves R (update f).
Proof. intros H [s w]. apply H. Qed.

Lemma preserves_in_world (R : Self -> Self -> Prop) (A : Type) (m : M World A) :
  (forall s w, R (s, w) (s, snd (m w))) -> preserves R (in_world m).
Proof.
  intros H [s w]. unfold in_world. simpl.
  specialize (H s w). destruct (m w) as [r w']. exact H.
Qed.

(** Goes through a computation built from [bind], [for_each], [lift],
    [read] and conditionals, and leaves the steps that touch the session or
    the world. *)
Ltac walk Hrefl Htrans :=
  repeat first
    [ apply preserves_bind; [exact Htrans | | intros ? ]
    | apply preserves_for_each; [exact Hrefl | exact Htrans | intros ? ]
    | apply preserves_lift; exact Hrefl
    | apply preserves_ret; exact Hrefl
    | apply preserves_raise; exact Hrefl
    | apply preserves_read; exact Hrefl
    | apply preserves_in_world
    | apply preserves_update
    | match goal with
      | |- preserves _ (if ?b then _ else _) => destruct b
      end ].

(** A loop that meets no failure runs its two halves in turn. *)
Lemma for_each_app (S A : Type) (l1 l2 : list A) (body : A -> M S unit) (s : S) :
  for_each (l1 ++ l2) body s
  = match for_each l1 body s with
    | (Ok _, s') => for_each l2 body s'
    | (Raise e, s') => (Raise e, s')
    end.
Proof.
  revert s. induction l1 as [|x l1 IH]; intros s; simpl.
  - reflexivity.
  - unfold bind. destruct (body x s) as [[[]|e] s']; [apply IH | reflexivity].
Qed.


(** *** [refresh_robots] *)

(** A device record: a dict with the four keys that [refresh_robots] reads. *)
Definition is_device (v : value) : bool :=
  match getitem v "name", getitem v "serial",
        getitem v "secret_key", getitem v "traits" with
  | Ok _, Ok _, Ok _, Ok _ => true
  | _, _, _, _ => false
  end.

Definition field (v : value) (k : string) : value :=
  match getitem v k with
  | Ok x => x
  | Raise _ => VNone
  end.

(** The robot that the loop builds from a device record. *)
Definition robot_of (ap : AuthProvider) (id : nat) (v : value) : Robot :=
  mkRobot id (field v "name") (field v "serial") (field v "secret_key")
          (field v "traits") ap.

Fixpoint robots_of (ap : AuthProvider) (id : nat) (l : list value) : list Robot :=
  match l with
  | [] => []
  | v :: l' => robot_of ap id v :: robots_of ap (S id) l'
  end.

(** [s.add(r)] for each [r] of [new], in turn. *)
Definition add_all (new old : list Robot) : list Robot :=
  fold_left (fun acc r => set_add r acc) new old.

(** The world after [q] was sent and [n] robots were built. *)
Definition after_fetch (q : Request) (n : nat) (w : World) : World :=
  mkWorld (sent w ++ [q]) (disk w) (drawn w) (header_calls w)
          (n + next_id w) (outside w).

Definition robots_request (s : Session) : Request :=
  get_request robots_url (_headers s).


Lemma set_add_nonempty (r : Robot) (l : list Robot) :
  is_empty (set_add r l) = false.
Proof.
  unfold set_add. destruct (existsb (robot_eq r) l) eqn:E.
  - destruct l; [discriminate E | reflexivity].
  - destruct l; reflexivity.
Qed.

Lemma add_all_nonempty (new old : list Robot) :
  is_empty old = false -> is_empty (add_all new old) = false.
Proof.
  revert old. induction new as [|r new IH]; intros old H; simpl.
  - assumption.
  - apply IH. apply set_add_nonempty.
Qed.

Lemma add_robot_device (v : value) (s : Session) (w : World) :
  is_device v = true ->
  add_robot v (s, w)
  = (Ok tt,
     (set_robots (set_add (robot_of (auth_provider s) (next_id w) v) (_robots s)) s,
      mkWorld (sent w) (disk w) (drawn w) (header_calls w) (S (next_id w))
              (outside w))).
Proof.
  unfold is_device, add_robot, robot_of, field, bind, lift, read, in_world,
    new_Robot, update.
  destruct (getitem v "name"); [|discriminate].
  destruct (getitem v "serial"); [|discriminate].
  destruct (getitem v "secret_key"); [|discriminate].
  destruct (getitem v "traits"); [|discriminate].
  reflexivity.
Qed.

Lemma for_each_add_devices (l : list value) (s : Session) (w : World) :
  forallb is_device l = true ->
  for_each l add_robot (s, w)
  = (Ok tt,
     (set_robots (add_all (robots_of (auth_provider s) (next_id w) l) (_robots s)) s,
      mkWorld (sent w) (disk w) (drawn w) (header_calls w)
              (List.length l + next_id w) (outside w))).
Proof.
  revert s w. induction l as [|v l IH]; intros s w H.
  - destruct s, w; reflexivity.
  - simpl in H. apply andb_prop in H. destruct H as [Hv Hl].
    cbn [for_each]. unfold bind. rewrite add_robot_device by exact Hv.
    rewrite IH by exact Hl. cbn.
    rewrite Nat.add_succ_r. reflexivity.
Qed.

Lemma refresh_robots_devices
  (s : Session) (w : World) (resp : Response) (l : list value) :
  server (sent w) (robots_request s) = Some resp ->
  error_status (status_code resp) = false ->
  json_body resp = Some (VList l) ->
  forallb is_device l = true ->
  refresh_robots (s, w)
  = (Ok tt,
     (set_robots (add_all (robots_of (auth_provider s) (next_id w) l) (_robots s)) s,
      after_fetch (robots_request s) (List.length l) w)).
Proof.
  intros Hserver Hstatus Hjson Hl.
  unfold refresh_robots, bind, read, in_world, requests_get, send, lift,
    raise_for_status, resp_json.
  cbn [fst snd]. unfold robots_request in Hserver.
  rewrite Hserver, Hstatus, Hjson. cbn [py_iter].
  rewrite for_each_add_devices by exact Hl. reflexivity.
Qed.








(** *** The property [robots] *)

(** The world after the requests [qs] were sent. *)
Definition sent_more (qs : list Request) (w : World) : World :=
  mkWorld (sent w ++ qs) (disk w) (drawn w) (header_calls w) (next_id w)
          (outside w).

Lemma sent_more_nil (w : World) : sent_more [] w = w.
Proof. unfold sent_more. rewrite app_nil_r. destruct w; reflexivity. Qed.

Lemma sent_more_more (qs qs' : list Request) (w : World) :
  sent_more qs' (sent_more qs w) = sent_more (qs ++ qs') w.
Proof. unfold sent_more. cbn. rewrite app_assoc. reflexivity. Qed.

Lemma robots_cached (s : Session) (w : World) :
  is_empty (_robots s) = false ->
  robots (s, w) = (Ok (_robots s), (s, w)).
Proof.
  intros H. unfold robots, bind, read. cbn [fst]. rewrite H. reflexivity.
Qed.

Lemma robots_fetch (s : Session) (w : World) :
  is_empty (_robots s) = true ->
  robots (s, w)
  = match refresh_robots (s, w) with
    | (Ok _, st) => (Ok (_robots (fst st)), st)
    | (Raise e, st) => (Raise e, st)
    end.
Proof.
  intros H. unfold robots, bind, read. cbn [fst]. rewrite H.
  destruct (refresh_robots (s, w)) as [[[]|e] st]; reflexivity.
Qed.

(** [n] evaluations of [session.robots], one after the other. *)
Fixpoint access_robots (n : nat) : M Self unit :=
  match n with
  | O => ret tt
  | S n' => robots ;; access_robots n'
  end.

(** The number of requests that a computation sends from a state. *)
Definition requests_during {A : Type} (m : M Self A) (st : Self) : nat :=
  List.length (sent (snd (snd (m st)))) - List.length (sent (snd st)).

(** C1, as amended. When [_robots] is empty and the fetch of the first
    access succeeds with at least one device record, two evaluations of
    [session.robots] with no refresh in between send exactly one request:
    the first access sends it and fills the set, the second sends nothing,
    changes nothing and returns the same set. *)
Theorem robots_memoized_when_populated
  (s : Session) (w : World) (resp : Response) (d : value) (l : list value)
  (Hempty : _robots s = [])
  (Hserver : server (sent w) (robots_request s) = Some resp)
  (Hstatus : error_status (status_code resp) = false)
  (Hjson : json_body resp = Some (VList (d :: l)))
  (Hdevices : forallb is_device (d :: l) = true) :
  exists (rs : list Robot) (st1 : Self),
    robots (s, w) = (Ok rs, st1) /\
    robots st1 = (Ok rs, st1) /\
    rs = _robots (fst st1) /\
    rs <> [] /\
    sent (snd st1) = sent w ++ [robots_request s] /\
    requests_during (access_robots 2) (s, w) = 1.
Proof.
  pose (rs := add_all (robots_of (auth_provider s) (next_id w) (d :: l)) (_robots s)).
  assert (Hne : is_empty rs = false).
  { unfold rs. cbn [robots_of add_all fold_left].
    apply add_all_nonempty, set_add_nonempty. }
  assert (H1 : robots (s, w)
               = (Ok rs, (set_robots rs s,
                          after_fetch (robots_request s) (List.length (d :: l)) w))).
  { rewrite robots_fetch by (rewrite Hempty; reflexivity).
    rewrite (@refresh_robots_devices s w resp (d :: l)) by assumption.
    reflexivity. }
  assert (H2 : robots (set_robots rs s,
                       after_fetch (robots_request s) (List.length (d :: l)) w)
               = (Ok rs, (set_robots rs s,
                          after_fetch (robots_request s) (List.length (d :: l)) w))).
  { apply (robots_cached (set_robots rs s)). exact Hne. }
  exists rs, (set_robots rs s,
              after_fetch (robots_request s) (List.length (d :: l)) w).
  repeat split; try assumption; try reflexivity.
  - intros E. rewrite E in Hne. discriminate.
  - unfold requests_during. cbn [access_robots]. unfold bind.
    rewrite H1, H2. cbn. rewrite length_app. cbn. lia.
Qed.

(** C9. The memo of [robots] is the set itself, not a flag. While the
    remote list of devices is empty, a session whose [_robots] is empty
    keeps it empty, and each evaluation of [session.robots] sends the
    request again: [n] evaluations send [n] requests. *)
Theorem robots_refetches_while_empty
  (s : Session) (w : World) (n : nat)
  (Hempty : _robots s = [])
  (Hserver : forall k, k < n ->
     exists resp,
       server (sent w ++ repeat (robots_request s) k) (robots_request s) = Some resp /\
       error_status (status_code resp) = false /\
       json_body resp = Some (VList [])) :
  access_robots n (s, w)
  = (Ok tt, (s, sent_more (repeat (robots_request s) n) w)) /\
  _robots (fst (snd (access_robots n (s, w)))) = [] /\
  requests_during (access_robots n) (s, w) = n.
Proof.
  assert (Hrun : access_robots n (s, w)
                 = (Ok tt, (s, sent_more (repeat (robots_request s) n) w))).
  { revert w Hserver. induction n as [|n IH]; intros w Hserver.
    - cbn. rewrite sent_more_nil. reflexivity.
    - cbn [access_robots]. unfold bind.
      destruct (Hserver 0) as (resp & Hresp & Hstatus & Hjson); [lia|].
      cbn [repeat] in Hresp. rewrite app_nil_r in Hresp.
      rewrite robots_fetch by (rewrite Hempty; reflexivity).
      rewrite (@refresh_robots_devices s w resp []) by (assumption || reflexivity).
      cbn [robots_of add_all fold_left List.length fst].
      replace (set_robots (_robots s) s) with s by (destruct s; reflexivity).
      change (after_fetch (robots_request s) 0 w)
        with (sent_more [robots_request s] w).
      rewrite IH.
      + rewrite sent_more_more. reflexivity.
      + intros k Hk. destruct (Hserver (S k)) as (r & Hr & Hs & Hj); [lia|].
        exists r. repeat split; try assumption.
        cbn [sent_more sent]. rewrite <- app_assoc. exact Hr. }
  rewrite Hrun. repeat split.
  - exact Hempty.
  - unfold requests_during. rewrite Hrun. cbn.
    rewrite length_app, repeat_length. lia.
Qed.


(** *** [refresh_maps] and the property [maps] *)

Definition maps_request (s : Session) (r : Robot) : Request :=
  get_request (maps_url r) (_headers s).

(** The remote side answers the maps requests of the robots [l], sent in
    turn with headers [hdrs] after the requests [h], with responses that
    pass [raise_for_status] and carry the JSON values [js]; the serial of
    each robot can be a dict key. *)
Fixpoint answered (hdrs : Headers) (h : list Request) (l : list Robot)
  (js : list value) : Prop :=
  match l, js with
  | [], [] => True
  | r :: l', j :: js' =>
      (exists resp,
          server h (get_request (maps_url r) hdrs) = Some resp /\
          error_status (status_code resp) = false /\
          json_body resp = Some j) /\
      hashable (serial r) = true /\
      answered hdrs (h ++ [get_request (maps_url r) hdrs]) l' js'
  | _, _ => False
  end.

(** [_maps.update({robot.serial: j})] for each robot and its answer, in turn. *)
Definition store_all (l : list Robot) (js : list value)
  (d : list (value * value)) : list (value * value) :=
  fold_left (fun acc rj => dict_update (serial (fst rj)) (snd rj) acc)
            (combine l js) d.

Lemma fetch_maps_ok (r : Robot) (s : Session) (w : World) (resp : Response) (j : value) :
  server (sent w) (maps_request s r) = Some resp ->
  error_status (status_code resp) = false ->
  json_body resp = Some j ->
  hashable (serial r) = true ->
  fetch_maps r (s, w)
  = (Ok tt, (set_maps (dict_update (serial r) j (_maps s)) s,
             sent_more [maps_request s r] w)).
Proof.
  intros Hserver Hstatus Hjson Hhash.
  unfold fetch_maps, bind, read, in_world, requests_get, send, lift,
    raise_for_status, resp_json.
  cbn [fst snd]. unfold maps_request in Hserver.
  rewrite Hserver, Hstatus, Hjson, Hhash. reflexivity.
Qed.

Lemma fetch_maps_http_error (r : Robot) (s : Session) (w : World) (bad : Response) :
  server (sent w) (maps_request s r) = Some bad ->
  error_status (status_code bad) = true ->
  fetch_maps r (s, w)
  = (Raise (HTTPError bad), (s, sent_more [maps_request s r] w)).
Proof.
  intros Hserver Hstatus.
  unfold fetch_maps, bind, read, in_world, requests_get, send, lift,
    raise_for_status.
  cbn [fst snd]. unfold maps_request in Hserver.
  rewrite Hserver, Hstatus. reflexivity.
Qed.

Lemma for_each_fetch_maps (l : list Robot) :
  forall (js : list value) (s : Session) (w : World),
    answered (_headers s) (sent w) l js ->
    for_each l fetch_maps (s, w)
    = (Ok tt, (set_maps (store_all l js (_maps s)) s,
               sent_more (map (maps_request s) l) w)).
Proof.
  induction l as [|r l IH]; intros js s w H.
  - destruct js; [|contradiction].
    cbn. rewrite sent_more_nil. destruct s; reflexivity.
  - destruct js as [|j js]; [contradiction|].
    cbn [answered] in H. destruct H as ((resp & Hserver & Hstatus & Hjson) & Hhash & Hrest).
    cbn [for_each]. unfold bind.
    rewrite (@fetch_maps_ok r s w resp j) by assumption.
    rewrite (IH js) by exact Hrest.
    rewrite sent_more_more. reflexivity.
Qed.

(** C3. [refresh_maps] is not atomic. Let the robots be iterated in the
    order [l1 ++ r :: l2], let the requests for the robots of [l1] be
    answered well and let the answer for [r] be one that
    [raise_for_status] rejects. Then [refresh_maps] raises that HTTP error
    at once: the request for [r] is the last one sent, none is sent for a
    robot of [l2], and [_maps] is left with the entries written for the
    robots of [l1] on top of what it held before, nothing being rolled
    back. *)
Theorem refresh_maps_partial_on_failure
  (s : Session) (w : World) (l1 l2 : list Robot) (r : Robot)
  (s1 : Session) (w1 : World) (js : list value) (bad : Response)
  (Hrobots : robots (s, w) = (Ok (l1 ++ r :: l2), (s1, w1)))
  (Hbefore : answered (_headers s1) (sent w1) l1 js)
  (Hbad : server (sent w1 ++ map (maps_request s1) l1) (maps_request s1 r) = Some bad)
  (Hstatus : error_status (status_code bad) = true) :
  refresh_maps (s, w)
  = (Raise (HTTPError bad),
     (set_maps (store_all l1 js (_maps s1)) s1,
      sent_more (map (maps_request s1) l1 ++ [maps_request s1 r]) w1)).
Proof.
  unfold refresh_maps, bind. rewrite Hrobots.
  rewrite for_each_app.
  rewrite (for_each_fetch_maps l1 js) by exact Hbefore.
  cbn [for_each]. unfold bind.
  rewrite (@fetch_maps_http_error r _ _ bad) by assumption.
  rewrite sent_more_more. reflexivity.
Qed.

Lemma maps_access (s : Session) (w : World) (rs : list Robot)
  (s1 : Session) (w1 : World) (js : list value) :
  robots (s, w) = (Ok rs, (s1, w1)) ->
  answered (_headers s1) (sent w1) rs js ->
  maps (s, w)
  = (Ok (store_all rs js (_maps s1)),
     (set_maps (store_all rs js (_maps s1)) s1,
      sent_more (map (maps_request s1) rs) w1)).
Proof.
  intros Hrobots Hanswered.
  unfold maps, refresh_maps, bind. rewrite Hrobots.
  rewrite (for_each_fetch_maps rs js) by exact Hanswered.
  reflexivity.
Qed.

Lemma robots_returns_set (st st1 : Self) (rs : list Robot) :
  robots st = (Ok rs, st1) -> rs = _robots (fst st1).
Proof.
  unfold robots, bind, read. intros H.
  destruct (is_empty (_robots (fst st))).
  - destruct (refresh_robots st) as [[[]|e] st']; inversion H; reflexivity.
  - cbn in H. inversion H; reflexivity.
Qed.

(** C2. The property [maps] is [refresh_maps()] followed by
    [return self._maps], with no test of what [_maps] holds. An access
    whose requests are answered sends, after what the access to [robots]
    sends, one GET per robot of the set and returns the refreshed [_maps];
    and a second access right after it sends the same GETs once more. *)
Theorem maps_refreshes_on_every_access
  (s : Session) (w : World) (rs : list Robot) (s1 : Session) (w1 : World)
  (js : list value)
  (Hrobots : robots (s, w) = (Ok rs, (s1, w1)))
  (Hanswered : answered (_headers s1) (sent w1) rs js) :
  let qs := map (maps_request s1) rs in
  let m1 := store_all rs js (_maps s1) in
  maps = (refresh_maps ;; read _maps) /\
  maps (s, w) = (Ok m1, (set_maps m1 s1, sent_more qs w1)) /\
  List.length qs = List.length rs /\
  sent (snd (snd (maps (s, w)))) = sent w1 ++ qs /\
  (forall js2 : list value,
      is_empty rs = false ->
      answered (_headers s1) (sent w1 ++ qs) rs js2 ->
      maps (set_maps m1 s1, sent_more qs w1)
      = (Ok (store_all rs js2 m1),
         (set_maps (store_all rs js2 m1) s1, sent_more (qs ++ qs) w1))).
Proof.
  intros qs m1.
  assert (H1 : maps (s, w) = (Ok m1, (set_maps m1 s1, sent_more qs w1)))
    by (apply maps_access; assumption).
  split; [reflexivity|]. split; [exact H1|].
  split; [apply length_map|]. split; [rewrite H1; reflexivity|].
  intros js2 Hne Hsecond.
  pose proof (robots_returns_set _ Hrobots) as Hrs. cbn [fst] in Hrs.
  rewrite (@maps_access (set_maps m1 s1) (sent_more qs w1) rs
                        (set_maps m1 s1) (sent_more qs w1) js2).
  - cbn [set_maps _maps _headers _robots auth_provider robot_serials
           _persistent_maps].
    rewrite sent_more_more. reflexivity.
  - rewrite Hrs. apply (robots_cached (set_maps m1 s1)).
    cbn [set_maps _robots]. rewrite <- Hrs. exact Hne.
  - exact Hsecond.
Qed.

(** *** [get_map_image] *)

(** The world after [q] was sent and [content] was written to [dest]. *)
Definition wrote (q : Request) (dest : string) (content : list byte)
  (w : World) : World :=
  mkWorld (sent w ++ [q]) ((dest, content) :: disk w) (drawn w)
          (header_calls w) (next_id w) (outside w).

Lemma truthy_nonempty (p : string) :
  truthy (Some p) = true -> String.eqb p "" = false.
Proof. destruct p; [discriminate | reflexivity]. Qed.

(** C4. The two modes of [get_map_image], for a request that the
    transport answers with [image]. Without a destination ([dest_path] is
    [None] or empty) the call looks at no status: whatever the status is,
    it returns the raw stream unread and leaves the disk as it was. With a
    destination and a status that [raise_for_status] rejects, the call
    raises and the disk is as it was: nothing was written (the exception is
    the HTTP error when the URL holds a slash, so that the file name can be
    formed). With a destination and a status that passes, the file name
    [fn] holds no slash, the file is [dest_path] joined with [fn], the body
    is written there and the raw stream, now read to its end, is returned;
    should the file not open, [OSError] is raised. *)
Theorem get_map_image_two_modes
  (u : string) (dest_path : option string) (w : World) (image : Response)
  (Hserver : server (sent w) (stream_request u) = Some image) :
  (truthy dest_path = false ->
   get_map_image u dest_path w
   = (Ok (mkRawStream image (raw image)), sent_more [stream_request u] w) /\
   disk (sent_more [stream_request u] w) = disk w)
  /\
  (truthy dest_path = true ->
   error_status (status_code image) = true ->
   exists e,
     get_map_image u dest_path w = (Raise e, sent_more [stream_request u] w) /\
     disk (sent_more [stream_request u] w) = disk w /\
     (In "/"%char (list_ascii_of_string u) -> e = HTTPError image))
  /\
  (forall p : string,
      dest_path = Some p ->
      truthy dest_path = true ->
      error_status (status_code image) = false ->
      In "/"%char (list_ascii_of_string u) ->
      exists fn : string,
        no_slash fn /\
        os_path_join p fn = (p ++ (if ends_with_slash p then "" else "/") ++ fn)%string /\
        (openable (os_path_join p fn) = true ->
         get_map_image u dest_path w
         = (Ok (mkRawStream image []),
            wrote (stream_request u) (os_path_join p fn) (raw image) w)) /\
        (openable (os_path_join p fn) = false ->
         get_map_image u dest_path w
         = (Raise OSError, sent_more [stream_request u] w))).
Proof.
  assert (Hsend : requests_get_stream u w
                  = (Ok image, sent_more [stream_request u] w)).
  { unfold requests_get_stream, send. rewrite Hserver. reflexivity. }
  split; [|split].
  - intros Hfalsy. split; [|reflexivity].
    unfold get_map_image, bind. rewrite Hsend, Hfalsy. reflexivity.
  - intros Htruthy Hstatus.
    unfold get_map_image, bind. rewrite Hsend, Htruthy.
    unfold lift, raise_for_status. rewrite Hstatus.
    destruct (index (rsplit "/" 2 u) 1) as [a|e1] eqn:Ea.
    + destruct (index (rsplit "/" 1 u) 1) as [b|e2] eqn:Eb.
      * destruct (index (split "?" (a ++ "-" ++ b)) 0) as [fn|e3] eqn:Efn.
        -- eexists. repeat split.
        -- eexists. split; [reflexivity|]. split; [reflexivity|].
           intros Hin.
           destruct (@rsplit_second 1 u Hin) as (a' & Ha' & Hna).
           destruct (@rsplit_second 0 u Hin) as (b' & Hb' & Hnb).
           rewrite Ha' in Ea. rewrite Hb' in Eb.
           inversion Ea; inversion Eb; subst a' b'.
           destruct (split_first (no_slash_join Hna Hnb)) as (fn & Hfn & _).
           rewrite Hfn in Efn. discriminate.
      * eexists. split; [reflexivity|]. split; [reflexivity|].
        intros Hin. destruct (@rsplit_second 0 u Hin) as (b' & Hb' & _).
        rewrite Hb' in Eb. discriminate.
    + eexists. split; [reflexivity|]. split; [reflexivity|].
      intros Hin. destruct (@rsplit_second 1 u Hin) as (a' & Ha' & _).
      rewrite Ha' in Ea. discriminate.
  - intros p Hp Htruthy Hstatus Hin.
    destruct (@rsplit_second 1 u Hin) as (a & Ha & Hna).
    destruct (@rsplit_second 0 u Hin) as (b & Hb & Hnb).
    destruct (split_first (no_slash_join Hna Hnb)) as (fn & Hfn & Hnf).
    exists fn. split; [exact Hnf|].
    assert (Hrun : get_map_image u dest_path w
                   = match write_file (os_path_join p fn) (raw image)
                             (sent_more [stream_request u] w) with
                     | (Ok _, w') => (Ok (mkRawStream image []), w')
                     | (Raise e, w') => (Raise e, w')
                     end).
    { unfold get_map_image, bind. rewrite Hsend, Htruthy.
      unfold lift, raise_for_status. rewrite Ha, Hb, Hfn, Hstatus, Hp.
      destruct (write_file (os_path_join p fn) (raw image)
                           (sent_more [stream_request u] w)) as [[[]|e] w'];
        reflexivity. }
    split; [|split].
    + unfold os_path_join. rewrite (no_slash_start Hnf).
      subst dest_path. rewrite (truthy_nonempty _ Htruthy). cbn [orb].
      destruct (ends_with_slash p); reflexivity.
    + intros Hopen. rewrite Hrun. unfold write_file. rewrite Hopen. reflexivity.
    + intros Hopen. rewrite Hrun. unfold write_file. rewrite Hopen. reflexivity.
Qed.


(** *** The header snapshot *)

(** From [st] to [st']: [_headers] is the same, [generate_headers] was not
    called, and each request sent in between carries the [_headers] of [st]. *)
Definition headers_frozen (st st' : Self) : Prop :=
  _headers (fst st') = _headers (fst st) /\
  header_calls (snd st') = header_calls (snd st) /\
  exists new, sent (snd st') = sent (snd st) ++ new /\
              Forall (fun q => headers q = Some (_headers (fst st))) new.

Lemma headers_frozen_refl (st : Self) : headers_frozen st st.
Proof.
  repeat split. exists []. rewrite app_nil_r. split; [reflexivity | constructor].
Qed.

Lemma headers_frozen_trans (st1 st2 st3 : Self) :
  headers_frozen st1 st2 -> headers_frozen st2 st3 -> headers_frozen st1 st3.
Proof.
  intros (Hh1 & Hc1 & n1 & Hs1 & Hf1) (Hh2 & Hc2 & n2 & Hs2 & Hf2).
  repeat split; [congruence | congruence |].
  exists (n1 ++ n2). split.
  - rewrite Hs2, Hs1, app_assoc. reflexivity.
  - apply Forall_app. split; [exact Hf1|]. rewrite <- Hh1. exact Hf2.
Qed.

Lemma headers_frozen_quiet (s s' : Session) (w w' : World) :
  _headers s' = _headers s -> header_calls w' = header_calls w ->
  sent w' = sent w -> headers_frozen (s, w) (s', w').
Proof.
  intros Hh Hc Hs. repeat split; [exact Hh | exact Hc |].
  exists []. cbn. rewrite app_nil_r. split; [exact Hs | constructor].
Qed.

Lemma headers_frozen_get (s : Session) (w : World) (u : string) :
  headers_frozen (s, w) (snd (in_world (requests_get u (_headers s)) (s, w))).
Proof.
  unfold in_world, requests_get, send. cbn [fst snd].
  destruct (server (sent w) (get_request u (_headers s)));
    (repeat split; exists [get_request u (_headers s)];
     split; [reflexivity | repeat constructor]).
Qed.

(** The first step of a computation at a state, the rest at any state. *)
Lemma preserves_from (S A B : Type) (R : S -> S -> Prop)
  (m : M S A) (k : A -> M S B) (s : S) :
  (forall s1 s2 s3, R s1 s2 -> R s2 s3 -> R s1 s3) ->
  R s (snd (m s)) -> (forall a, preserves R (k a)) -> R s (snd (bind m k s)).
Proof.
  intros Htrans Hm Hk. unfold bind.
  destruct (m s) as [[a|e] s']; simpl in Hm.
  - apply Htrans with s'; [exact Hm | apply Hk].
  - exact Hm.
Qed.

Ltac frozen_walk :=
  walk headers_frozen_refl headers_frozen_trans;
  try (intros; apply headers_frozen_quiet; reflexivity).

Lemma refresh_robots_frozen : preserves headers_frozen refresh_robots.
Proof.
  intros [s w]. unfold refresh_robots.
  change (bind (read _headers) ?k (s, w)) with (k (_headers s) (s, w)).
  apply preserves_from; [exact headers_frozen_trans | apply headers_frozen_get |].
  intros resp. unfold add_robot. frozen_walk.
Qed.

Lemma robots_frozen : preserves headers_frozen robots.
Proof.
  unfold robots.
  apply preserves_bind; [exact headers_frozen_trans | |intros rs].
  - apply preserves_read. exact headers_frozen_refl.
  - apply preserves_bind; [exact headers_frozen_trans | |intros _].
    + destruct (is_empty rs);
        [exact refresh_robots_frozen | apply preserves_ret, headers_frozen_refl].
    + apply preserves_read. exact headers_frozen_refl.
Qed.

Lemma fetch_maps_frozen (r : Robot) : preserves headers_frozen (fetch_maps r).
Proof.
  intros [s w]. unfold fetch_maps.
  change (bind (read _headers) ?k (s, w)) with (k (_headers s) (s, w)).
  apply preserves_from; [exact headers_frozen_trans | apply headers_frozen_get |].
  intros resp. frozen_walk.
Qed.

Lemma refresh_maps_frozen : preserves headers_frozen refresh_maps.
Proof.
  unfold refresh_maps.
  apply preserves_bind; [exact headers_frozen_trans | exact robots_frozen |].
  intros rs. apply preserves_for_each;
    [exact headers_frozen_refl | exact headers_frozen_trans | exact fetch_maps_frozen].
Qed.

Lemma maps_frozen : preserves headers_frozen maps.
Proof.
  unfold maps.
  apply preserves_bind; [exact headers_frozen_trans | exact refresh_maps_frozen |].
  intros _. apply preserves_read. exact headers_frozen_refl.
Qed.

Lemma collect_persistent_frozen (rs : list Robot) :
  forall acc, preserves headers_frozen (collect_persistent rs acc).
Proof.
  induction rs as [|r rs IH]; intros acc; cbn [collect_persistent].
  - apply preserves_ret, headers_frozen_refl.
  - apply preserves_bind; [exact headers_frozen_trans | |intros v].
    + apply preserves_in_world. intros s w.
      unfold in_outside. destruct (robot_persistent_maps r (outside w)).
      apply headers_frozen_quiet; reflexivity.
    + destruct (hashable (serial r));
        [apply IH | apply preserves_raise, headers_frozen_refl].
Qed.

Lemma persistent_maps_frozen : preserves headers_frozen persistent_maps.
Proof.
  unfold persistent_maps.
  apply preserves_bind; [exact headers_frozen_trans | exact robots_frozen |].
  intros rs. apply collect_persistent_frozen.
Qed.


(** From [st] to [st']: [_headers] is the same, [generate_headers] was not
    called, and each request sent in between carries no headers at all or
    the [_headers] of [st]. *)
Definition snapshot_kept (st st' : Self) : Prop :=
  _headers (fst st') = _headers (fst st) /\
  header_calls (snd st') = header_calls (snd st) /\
  exists new, sent (snd st') = sent (snd st) ++ new /\
              Forall (fun q => headers q = None \/
                               headers q = Some (_headers (fst st))) new.

Lemma snapshot_kept_refl (st : Self) : snapshot_kept st st.
Proof.
  repeat split. exists []. rewrite app_nil_r. split; [reflexivity | constructor].
Qed.

Lemma snapshot_kept_trans (st1 st2 st3 : Self) :
  snapshot_kept st1 st2 -> snapshot_kept st2 st3 -> snapshot_kept st1 st3.
Proof.
  intros (Hh1 & Hc1 & n1 & Hs1 & Hf1) (Hh2 & Hc2 & n2 & Hs2 & Hf2).
  repeat split; [congruence | congruence |].
  exists (n1 ++ n2). split.
  - rewrite Hs2, Hs1, app_assoc. reflexivity.
  - apply Forall_app. split; [exact Hf1|]. rewrite <- Hh1. exact Hf2.
Qed.

Lemma frozen_snapshot_kept (A : Type) (m : M Self A) :
  preserves headers_frozen m -> preserves snapshot_kept m.
Proof.
  intros H st. destruct (H st) as (Hh & Hc & new & Hs & Hf).
  repeat split; [exact Hh | exact Hc |].
  exists new. split; [exact Hs|].
  apply Forall_impl with (2 := Hf). intros q Hq. right. exact Hq.
Qed.

(** [get_map_image] calls no [generate_headers], and what it sends carries
    no headers. *)
Lemma get_map_image_unauthenticated (u : string) (d : option string) (w : World) :
  header_calls (snd (get_map_image u d w)) = header_calls w /\
  sent (snd (get_map_image u d w)) = sent w ++ [stream_request u] /\
  headers (stream_request u) = None.
Proof.
  unfold get_map_image, bind, requests_get_stream, send, lift, write_file, ret.
  destruct (server (sent w) (stream_request u)); [|repeat split].
  destruct (truthy d); [|repeat split].
  destruct (index (rsplit "/" 2 u) 1); [|repeat split].
  destruct (index (rsplit "/" 1 u) 1); [|repeat split].
  destruct (index (split "?" _) 0); [|repeat split].
  destruct (raise_for_status r); [|repeat split].
  destruct (openable _); repeat split.
Qed.

Lemma call_snapshot_kept (c : Call) : preserves snapshot_kept (call c).
Proof.
  pose proof snapshot_kept_refl as Hrefl.
  pose proof snapshot_kept_trans as Htrans.
  destruct c; cbn [call].
  - apply preserves_bind; [exact Htrans | | intros; apply preserves_ret, Hrefl].
    apply frozen_snapshot_kept, robots_frozen.
  - apply preserves_bind; [exact Htrans | | intros; apply preserves_ret, Hrefl].
    apply frozen_snapshot_kept, maps_frozen.
  - apply frozen_snapshot_kept, refresh_robots_frozen.
  - apply frozen_snapshot_kept, refresh_maps_frozen.
  - apply preserves_bind; [exact Htrans | | intros; apply preserves_ret, Hrefl].
    apply frozen_snapshot_kept, persistent_maps_frozen.
  - apply preserves_bind; [exact Htrans | | intros; apply preserves_ret, Hrefl].
    apply preserves_in_world. intros s w.
    destruct (get_map_image_unauthenticated u dest_path w) as (Hc & Hs & Hh).
    repeat split; [exact Hc|].
    exists [stream_request u]. split; [exact Hs|].
    constructor; [left; exact Hh | constructor].
Qed.

Lemma calls_snapshot_kept (cs : list Call) :
  forall st, snapshot_kept st (calls cs st).
Proof.
  induction cs as [|c cs IH]; intros st; cbn [calls].
  - apply snapshot_kept_refl.
  - apply snapshot_kept_trans with (snd (call c st));
      [apply call_snapshot_kept | apply IH].
Qed.

(** C8. [_headers] is computed once. [Session.__init__] calls
    [generate_headers] once and stores the result. After that no operation
    of the session calls it again or writes [_headers]: each of
    [refresh_robots], [refresh_maps], [robots], [maps] and
    [persistent_maps] leaves [_headers] and the count of calls as they
    were, however it ends, and every request it sends carries the stored
    [_headers]; [get_map_image] calls nothing either and sends its request
    without headers. So after any sequence of calls on the session the
    headers are the snapshot, the count is still one more than before the
    construction, and every request sent since carries the snapshot or no
    headers. *)
Theorem headers_snapshot_once (ap : AuthProvider) (w : World) :
  exists (s : Session) (w0 : World),
    Session_init ap w = (Ok s, w0) /\
    _headers s = headers_of ap /\
    header_calls w0 = S (header_calls w) /\
    preserves headers_frozen refresh_robots /\
    preserves headers_frozen refresh_maps /\
    preserves headers_frozen robots /\
    preserves headers_frozen maps /\
    preserves headers_frozen persistent_maps /\
    (forall u d w1, header_calls (snd (get_map_image u d w1)) = header_calls w1) /\
    (forall cs : list Call,
        _headers (fst (calls cs (s, w0))) = headers_of ap /\
        header_calls (snd (calls cs (s, w0))) = S (header_calls w) /\
        exists new,
          sent (snd (calls cs (s, w0))) = sent w ++ new /\
          Forall (fun q => headers q = None \/
                           headers q = Some (headers_of ap)) new).
Proof.
  eexists; eexists. split; [reflexivity|].
  split; [reflexivity|]. split; [reflexivity|].
  split; [exact refresh_robots_frozen|].
  split; [exact refresh_maps_frozen|].
  split; [exact robots_frozen|].
  split; [exact maps_frozen|].
  split; [exact persistent_maps_frozen|].
  split; [intros u d w1; apply get_map_image_unauthenticated|].
  intros cs.
  match goal with
  | |- context [calls cs ?st] =>
      destruct (calls_snapshot_kept cs st) as (H1 & H2 & new & H3 & H4)
  end.
  split; [rewrite H1; reflexivity|].
  split; [rewrite H2; reflexivity|].
  exists new. split; [rewrite H3; reflexivity | exact H4].
Qed.

(** *** The fields [robot_serials] and [_persistent_maps] *)

(** The session with other contents in the two fields. *)
Definition with_dead (a b : list (value * value)) (s : Session) : Session :=
  mkSession (auth_provider s) (_robots s) a (_maps s) (_headers s) b.

(** A computation that does not look at the two fields and does not write
    them: run on a session with other contents there, it does the same and
    leaves those contents in place. *)
Definition blind {A : Type} (m : M Self A) : Prop :=
  forall (a b : list (value * value)) (s : Session) (w : World),
    m (with_dead a b s, w)
    = (fst (m (s, w)), (with_dead a b (fst (snd (m (s, w)))), snd (snd (m (s, w))))).

Lemma blind_ret (A : Type) (x : A) : blind (ret x).
Proof. intros a b s w. reflexivity. Qed.

Lemma blind_raise (A : Type) (e : exn) : blind (raise (A:=A) e).
Proof. intros a b s w. reflexivity. Qed.

Lemma blind_lift (A : Type) (r : result A) : blind (lift r).
Proof. intros a b s w. reflexivity. Qed.

Lemma blind_read (A : Type) (f : Session -> A) :
  (forall a b s, f (with_dead a b s) = f s) -> blind (read f).
Proof. intros H a b s w. unfold read. cbn. rewrite H. reflexivity. Qed.

Lemma blind_update (f : Session -> Session) :
  (forall a b s, f (with_dead a b s) = with_dead a b (f s)) -> blind (update f).
Proof. intros H a b s w. unfold update. cbn. rewrite H. reflexivity. Qed.

Lemma blind_in_world (A : Type) (m : M World A) : blind (in_world m).
Proof.
  intros a b s w. unfold in_world. cbn. destruct (m w). reflexivity.
Qed.

Lemma blind_bind (A B : Type) (m : M Self A) (k : A -> M Self B) :
  blind m -> (forall x, blind (k x)) -> blind (bind m k).
Proof.
  intros Hm Hk a b s w. unfold bind. rewrite Hm.
  destruct (m (s, w)) as [[x|e] [s' w']]; cbn [fst snd].
  - apply Hk.
  - reflexivity.
Qed.

Lemma blind_for_each (A : Type) (l : list A) (body : A -> M Self unit) :
  (forall x, blind (body x)) -> blind (for_each l body).
Proof.
  intros H. induction l as [|x l IH]; cbn [for_each].
  - apply blind_ret.
  - apply blind_bind; [apply H | intros _; exact IH].
Qed.

Ltac blind_walk :=
  repeat first
    [ apply blind_bind; [ | intros ? ]
    | apply blind_for_each; intros ?
    | apply blind_lift
    | apply blind_ret
    | apply blind_raise
    | apply blind_in_world
    | apply blind_read; intros; reflexivity
    | apply blind_update; intros; reflexivity
    | match goal with
      | |- blind (if ?b then _ else _) => destruct b
      end ].

Lemma refresh_robots_blind : blind refresh_robots.
Proof. unfold refresh_robots, add_robot. blind_walk. Qed.

Lemma robots_blind : blind robots.
Proof.
  unfold robots. blind_walk.
Qed.

Lemma refresh_maps_blind : blind refresh_maps.
Proof.
  unfold refresh_maps.
  apply blind_bind; [apply robots_blind | intros rs].
  unfold fetch_maps. blind_walk.
Qed.

Lemma maps_blind : blind maps.
Proof.
  unfold maps.
  apply blind_bind; [apply refresh_maps_blind | intros _]. blind_walk.
Qed.

Lemma collect_persistent_blind (rs : list Robot) :
  forall acc, blind (collect_persistent rs acc).
Proof.
  induction rs as [|r rs IH]; intros acc; cbn [collect_persistent].
  - apply blind_ret.
  - apply blind_bind; [apply blind_in_world | intros v].
    destruct (hashable (serial r)); [apply IH | apply blind_raise].
Qed.

Lemma persistent_maps_blind : blind persistent_maps.
Proof.
  unfold persistent_maps.
  apply blind_bind; [apply robots_blind | intros rs].
  apply collect_persistent_blind.
Qed.

Lemma call_blind (c : Call) : blind (call c).
Proof.
  destruct c; cbn [call].
  - apply blind_bind; [apply robots_blind | intros; apply blind_ret].
  - apply blind_bind; [apply maps_blind | intros; apply blind_ret].
  - apply refresh_robots_blind.
  - apply refresh_maps_blind.
  - apply blind_bind; [apply persistent_maps_blind | intros; apply blind_ret].
  - apply blind_bind; [apply blind_in_world | intros; apply blind_ret].
Qed.

Lemma blind_keeps (A : Type) (m : M Self A) (s : Session) (w : World) :
  blind m ->
  robot_serials (fst (snd (m (s, w)))) = robot_serials s /\
  _persistent_maps (fst (snd (m (s, w)))) = _persistent_maps s.
Proof.
  intros H.
  specialize (H (robot_serials s) (_persistent_maps s) s w).
  replace (with_dead (robot_serials s) (_persistent_maps s) s) with s in H
    by (destruct s; reflexivity).
  destruct (m (s, w)) as [r [s' w']]. cbn [fst snd] in *.
  inversion H as [Hs]. rewrite Hs at 1 2. split; reflexivity.
Qed.

Lemma calls_keep_dead (cs : list Call) :
  forall (s : Session) (w : World),
    robot_serials (fst (calls cs (s, w))) = robot_serials s /\
    _persistent_maps (fst (calls cs (s, w))) = _persistent_maps s.
Proof.
  induction cs as [|c cs IH]; intros s w; cbn [calls].
  - split; reflexivity.
  - destruct (blind_keeps s w (call_blind c)) as [H1 H2].
    destruct (call c (s, w)) as [r [s' w']]. cbn [fst snd] in *.
    destruct (IH s' w') as [H3 H4]. split; congruence.
Qed.

(** C10. [robot_serials] and [_persistent_maps] are empty when the session
    is built, and no operation reads or writes them: [robots], [maps],
    [refresh_robots], [refresh_maps] and [persistent_maps] do the same
    whatever the two fields hold and leave them as they found them, and the
    static [get_map_image] has no session to look at. So after any sequence
    of calls on the session the two fields are still empty. *)
Theorem dead_fields_stay_empty (ap : AuthProvider) (w : World) :
  exists (s : Session) (w0 : World),
    Session_init ap w = (Ok s, w0) /\
    robot_serials s = [] /\
    _persistent_maps s = [] /\
    blind robots /\
    blind maps /\
    blind refresh_robots /\
    blind refresh_maps /\
    blind persistent_maps /\
    (forall u d, blind (in_world (get_map_image u d))) /\
    (forall cs : list Call,
        robot_serials (fst (calls cs (s, w0))) = [] /\
        _persistent_maps (fst (calls cs (s, w0))) = []).
Proof.
  eexists; eexists. split; [reflexivity|].
  split; [reflexivity|]. split; [reflexivity|].
  split; [exact robots_blind|].
  split; [exact maps_blind|].
  split; [exact refresh_robots_blind|].
  split; [exact refresh_maps_blind|].
  split; [exact persistent_maps_blind|].
  split; [intros u d; apply blind_in_world|].
  intros cs. apply calls_keep_dead.
Qed.

(** *** Login *)

(** The POST that [login_basic] sends from a world [w]. *)
Definition login_request (email password : string) (w : World) : Request :=
  post_request (urljoin ENDPOINT "sessions")
    (VDict [("email", VStr email);
            ("password", VStr password);
            ("platform", VStr "ios");
            ("token", VStr (hexlify (map entropy (seq (drawn w) 64))))])
    [("Accept", "application/vnd.neato.nucleo.v1")].

(** C6. [login_oauth] sends nothing: the requests sent are those sent
    before. It returns a fresh [Session] that holds [OAuthProvider(oauth_token)]
    and whose headers are the provider's: [Accept] is
    ["application/vnd.neato.beehive.v1+json"] and [Authorization] is
    ["Bearer "] followed by the token as [format] prints it, which for a
    string token is the token itself. *)
Theorem login_oauth_no_request_bearer (oauth_token : value) (w : World) :
  exists s w',
    login_oauth oauth_token w = (Ok s, w') /\
    sent w' = sent w /\
    disk w' = disk w /\
    auth_provider s = OAuthProvider oauth_token /\
    _headers s = headers_of (auth_provider s) /\
    _headers s = [("Accept", "application/vnd.neato.beehive.v1+json");
                  ("Authorization", ("Bearer " ++ py_str oauth_token)%string)] /\
    lookup "Accept" (_headers s) = Some "application/vnd.neato.beehive.v1+json" /\
    lookup "Authorization" (_headers s)
    = Some ("Bearer " ++ py_str oauth_token)%string /\
    (forall t : string, py_str (VStr t) = t) /\
    _robots s = [] /\ _maps s = [].
Proof.
  eexists; eexists.
  split; [reflexivity|].
  cbn. repeat split; reflexivity.
Qed.

(** C5. [login_basic] sends one POST to [urljoin(ENDPOINT, 'sessions')]
    whose JSON body holds the email, the password, platform ["ios"] and a
    token that is the hex encoding of 64 bytes drawn from [os.urandom]: 128
    characters, all of them hexadecimal digits, which decode to the very
    bytes that this call drew (the 64 bytes from the position [drawn] on,
    which the call moves past), so that no other bytes give the same
    token. When the answer passes [raise_for_status] and its JSON body has
    an [access_token], the result is a [Session] on
    [BasicAuthProvider(access_token)] whose [Authorization] header is
    ["Token token="] followed by the token, with no ["Bearer"] in front. *)
Theorem login_basic_nonce_and_token
  (email password : string) (w : World) (resp : Response) (body tok : value)
  (Hserver : server (sent w) (login_request email password w) = Some resp)
  (Hstatus : error_status (status_code resp) = false)
  (Hjson : json_body resp = Some body)
  (Htoken : getitem body "access_token" = Ok tok) :
  let nonce := map entropy (seq (drawn w) 64) in
  exists s w',
    login_basic email password w
    = (Ok s, w') /\
    sent w' = sent w ++ [login_request email password w] /\
    drawn w' = drawn w + 64 /\
    json (login_request email password w)
    = Some (VDict [("email", VStr email); ("password", VStr password);
                   ("platform", VStr "ios"); ("token", VStr (hexlify nonce))]) /\
    List.length nonce = 64 /\
    String.length (hexlify nonce) = 128 /\
    forallb is_hex (list_ascii_of_string (hexlify nonce)) = true /\
    auth_provider s = BasicAuthProvider tok /\
    _headers s = [("Accept", "application/vnd.neato.nucleo.v1");
                  ("Authorization", ("Token token=" ++ py_str tok)%string)] /\
    lookup "Authorization" (_headers s)
    = Some ("Token token=" ++ py_str tok)%string /\
    (forall t : string, py_str (VStr t) = t) /\
    unhexlify (hexlify nonce) = Some nonce /\
    (forall i, i < 64 -> nth_error nonce i = Some (entropy (drawn w + i))) /\
    (forall other : list byte, hexlify other = hexlify nonce -> other = nonce).
Proof.
  intros nonce.
  assert (Hlen : List.length nonce = 64).
  { unfold nonce. rewrite length_map, length_seq. reflexivity. }
  eexists; eexists. split.
  - unfold login_basic, bind, os_urandom, requests_post, send, lift.
    cbn [sent disk drawn header_calls next_id outside].
    unfold login_request in Hserver. rewrite Hserver.
    unfold raise_for_status. rewrite Hstatus.
    unfold resp_json. rewrite Hjson, Htoken.
    reflexivity.
  - cbn [sent drawn auth_provider _headers].
    split; [reflexivity|]. split; [reflexivity|]. split; [reflexivity|].
    split; [exact Hlen|].
    split; [rewrite hexlify_length, Hlen; reflexivity|].
    split; [apply hexlify_hex|].
    split; [reflexivity|]. split; [reflexivity|]. split; [reflexivity|].
    split; [reflexivity|].
    split; [apply unhexlify_hexlify|].
    split.
    + intros i Hi. unfold nonce.
      rewrite nth_error_map, nth_error_seq.
      destruct (Nat.ltb_spec i 64) as [_|Hge]; [reflexivity | lia].
    + intros other H. apply hexlify_injective. exact H.
Qed.

(** ** Further properties *)

(** *** Failures of [refresh_robots] *)

(** X1. A failure of [refresh_robots] before its loop leaves the session
    as it was, with the one request sent: a transport failure raises
    [ConnectionError], a status that [raise_for_status] rejects raises the
    HTTP error, a body that is no JSON raises [ValueError] and a JSON body
    that cannot be iterated ([null], a number, a boolean) raises
    [TypeError]. *)
Theorem refresh_robots_fails_before_loop (s : Session) (w : World) :
  let q := robots_request s in
  (server (sent w) q = None ->
   refresh_robots (s, w) = (Raise ConnectionError, (s, sent_more [q] w))) /\
  (forall resp,
      server (sent w) q = Some resp ->
      error_status (status_code resp) = true ->
      refresh_robots (s, w) = (Raise (HTTPError resp), (s, sent_more [q] w))) /\
  (forall resp,
      server (sent w) q = Some resp ->
      error_status (status_code resp) = false ->
      json_body resp = None ->
      refresh_robots (s, w) = (Raise ValueError, (s, sent_more [q] w))) /\
  (forall resp body e,
      server (sent w) q = Some resp ->
      error_status (status_code resp) = false ->
      json_body resp = Some body ->
      py_iter body = Raise e ->
      e = TypeError /\
      refresh_robots (s, w) = (Raise e, (s, sent_more [q] w))).
Proof.
  intros q. unfold q, robots_request.
  split; [|split; [|split]].
  - intros H.
    unfold refresh_robots, bind, read, in_world, requests_get, send.
    cbn [fst snd]. rewrite H. reflexivity.
  - intros resp H Hst.
    unfold refresh_robots, bind, read, in_world, requests_get, send, lift,
      raise_for_status.
    cbn [fst snd]. rewrite H, Hst. reflexivity.
  - intros resp H Hst Hj.
    unfold refresh_robots, bind, read, in_world, requests_get, send, lift,
      raise_for_status, resp_json.
    cbn [fst snd]. rewrite H, Hst, Hj. reflexivity.
  - intros resp body e H Hst Hj Hit. split.
    + destruct body; simpl in Hit; congruence.
    + unfold refresh_robots, bind, read, in_world, requests_get, send, lift,
        raise_for_status, resp_json.
      cbn [fst snd]. rewrite H, Hst, Hj, Hit. reflexivity.
Qed.



(** X3. A failed fetch is not remembered. On a session whose [_robots] is
    empty, when the remote side answers the robots request with a status
    that [raise_for_status] rejects, [robots], [refresh_maps], [maps] and
    [persistent_maps] all raise that HTTP error, send that one request and
    leave the session as it was; an access to [robots] after it sends the
    request again and, answered with device records, fills the set. *)
Theorem robots_failure_not_cached
  (s : Session) (w : World) (bad : Response)
  (Hempty : _robots s = [])
  (Hserver : server (sent w) (robots_request s) = Some bad)
  (Hstatus : error_status (status_code bad) = true) :
  let q := robots_request s in
  let st := (s, sent_more [q] w) in
  robots (s, w) = (Raise (HTTPError bad), st) /\
  refresh_maps (s, w) = (Raise (HTTPError bad), st) /\
  maps (s, w) = (Raise (HTTPError bad), st) /\
  persistent_maps (s, w) = (Raise (HTTPError bad), st) /\
  (forall resp l,
      server (sent w ++ [q]) q = Some resp ->
      error_status (status_code resp) = false ->
      json_body resp = Some (VList l) ->
      forallb is_device l = true ->
      robots st
      = (Ok (add_all (robots_of (auth_provider s) (next_id w) l) []),
         (set_robots (add_all (robots_of (auth_provider s) (next_id w) l) []) s,
          after_fetch q (List.length l) (sent_more [q] w)))).
Proof.
  intros q st.
  assert (Hfetch : refresh_robots (s, w) = (Raise (HTTPError bad), st)).
  { unfold refresh_robots, bind, read, in_world, requests_get, send, lift,
      raise_for_status.
    cbn [fst snd]. unfold robots_request in Hserver.
    rewrite Hserver, Hstatus. reflexivity. }
  assert (Hrobots : robots (s, w) = (Raise (HTTPError bad), st)).
  { rewrite robots_fetch by (rewrite Hempty; reflexivity).
    rewrite Hfetch. reflexivity. }
  split; [exact Hrobots|].
  split; [unfold refresh_maps, bind; rewrite Hrobots; reflexivity|].
  split; [unfold maps, refresh_maps, bind; rewrite Hrobots; reflexivity|].
  split; [unfold persistent_maps, bind; rewrite Hrobots; reflexivity|].
  intros resp l Hresp Hst Hjson Hl.
  unfold st. rewrite robots_fetch by (rewrite Hempty; reflexivity).
  rewrite (@refresh_robots_devices s (sent_more [q] w) resp l) by assumption.
  cbn [fst _robots set_robots]. rewrite Hempty. reflexivity.
Qed.

(** *** More on login *)

(** The world after [login_basic] drew its nonce and sent [q]. *)
Definition after_login (q : Request) (w : World) : World :=
  mkWorld (sent w ++ [q]) (disk w) (drawn w + 64) (header_calls w)
          (next_id w) (outside w).

(** X4. When [login_basic] fails it builds no session: it has drawn its 64
    bytes and sent its one request, and [generate_headers] was not called.
    A transport failure raises [ConnectionError], a status that
    [raise_for_status] rejects the HTTP error, a body that is no JSON
    [ValueError], a JSON object without [access_token]
    [KeyError('access_token')] and a JSON value that is no object
    [TypeError]. *)
Theorem login_basic_failures (email password : string) (w : World) :
  let q := login_request email password w in
  (server (sent w) q = None ->
   login_basic email password w = (Raise ConnectionError, after_login q w)) /\
  (forall resp,
      server (sent w) q = Some resp ->
      error_status (status_code resp) = true ->
      login_basic email password w = (Raise (HTTPError resp), after_login q w)) /\
  (forall resp,
      server (sent w) q = Some resp ->
      error_status (status_code resp) = false ->
      json_body resp = None ->
      login_basic email password w = (Raise ValueError, after_login q w)) /\
  (forall resp d,
      server (sent w) q = Some resp ->
      error_status (status_code resp) = false ->
      json_body resp = Some (VDict d) ->
      lookup "access_token" d = None ->
      login_basic email password w
      = (Raise (KeyError "access_token"), after_login q w)) /\
  (forall resp body,
      server (sent w) q = Some resp ->
      error_status (status_code resp) = false ->
      json_body resp = Some body ->
      (forall d, body <> VDict d) ->
      login_basic email password w = (Raise TypeError, after_login q w)).
Proof.
  intros q. unfold q, login_request.
  split; [|split; [|split; [|split]]].
  - intros H.
    unfold login_basic, bind, os_urandom, requests_post, send.
    cbn [sent disk drawn header_calls next_id outside]. rewrite H. reflexivity.
  - intros resp H Hst.
    unfold login_basic, bind, os_urandom, requests_post, send, lift,
      raise_for_status.
    cbn [sent disk drawn header_calls next_id outside].
    rewrite H, Hst. reflexivity.
  - intros resp H Hst Hj.
    unfold login_basic, bind, os_urandom, requests_post, send, lift,
      raise_for_status, resp_json.
    cbn [sent disk drawn header_calls next_id outside].
    rewrite H, Hst, Hj. reflexivity.
  - intros resp d H Hst Hj Hk.
    unfold login_basic, bind, os_urandom, requests_post, send, lift,
      raise_for_status, resp_json.
    cbn [sent disk drawn header_calls next_id outside].
    rewrite H, Hst, Hj. cbn [getitem]. rewrite Hk. reflexivity.
  - intros resp body H Hst Hj Hn.
    unfold login_basic, bind, os_urandom, requests_post, send, lift,
      raise_for_status, resp_json.
    cbn [sent disk drawn header_calls next_id outside].
    rewrite H, Hst, Hj.
    destruct body; try reflexivity. exfalso. exact (Hn d eq_refl).
Qed.

(** However it ends, [login_basic] draws 64 bytes and sends its request. *)
Lemma login_basic_draws_and_sends (email password : string) (w : World) :
  drawn (snd (login_basic email password w)) = drawn w + 64 /\
  sent (snd (login_basic email password w))
  = sent w ++ [login_request email password w].
Proof.
  unfold login_basic, bind, os_urandom, requests_post, send, lift,
    Session_init, generate_headers, ret.
  cbn [sent disk drawn header_calls next_id outside].
  fold (login_request email password w).
  destruct (server (sent w) (login_request email password w)) as [resp|];
    [|split; reflexivity].
  destruct (raise_for_status resp); [|split; reflexivity].
  destruct (resp_json resp) as [body|]; [|split; reflexivity].
  destruct (getitem body "access_token"); split; reflexivity.
Qed.

(** The token of a login request is the hex of the 64 bytes at [drawn]. *)
Definition login_token (w : World) : string :=
  hexlify (map entropy (seq (drawn w) 64)).

(** X5. Every login encodes its own draw from [os.urandom]. Whatever the
    first login ends in, the token of a second login right after it
    decodes to the 64 bytes that follow the 64 of the first; so the two
    tokens are the same exactly when [os.urandom] gave the same 64 bytes
    twice: the module keeps no nonce and repeats none by itself. The two
    requests are sent one after the other. *)
Theorem login_basic_token_per_login
  (email1 password1 email2 password2 : string) (w : World) :
  let w1 := snd (login_basic email1 password1 w) in
  let w2 := snd (login_basic email2 password2 w1) in
  json (login_request email1 password1 w)
  = Some (VDict [("email", VStr email1); ("password", VStr password1);
                 ("platform", VStr "ios"); ("token", VStr (login_token w))]) /\
  json (login_request email2 password2 w1)
  = Some (VDict [("email", VStr email2); ("password", VStr password2);
                 ("platform", VStr "ios"); ("token", VStr (login_token w1))]) /\
  unhexlify (login_token w) = Some (map entropy (seq (drawn w) 64)) /\
  unhexlify (login_token w1) = Some (map entropy (seq (drawn w + 64) 64)) /\
  (login_token w = login_token w1 <->
   forall i, i < 64 -> entropy (drawn w + i) = entropy (drawn w + 64 + i)) /\
  drawn w2 = drawn w + 128 /\
  sent w2 = sent w ++ [login_request email1 password1 w;
                       login_request email2 password2 w1].
Proof.
  intros w1 w2.
  destruct (login_basic_draws_and_sends email1 password1 w) as [Hd1 Hs1].
  destruct (login_basic_draws_and_sends email2 password2 w1) as [Hd2 Hs2].
  fold w1 in Hd1, Hs1. fold w2 in Hd2, Hs2.
  assert (Htok : login_token w1 = hexlify (map entropy (seq (drawn w + 64) 64)))
    by (unfold login_token; rewrite Hd1; reflexivity).
  split; [reflexivity|]. split; [reflexivity|].
  split; [apply unhexlify_hexlify|].
  split; [rewrite Htok; apply unhexlify_hexlify|].
  split.
  - rewrite Htok. unfold login_token. split.
    + intros H. apply hexlify_injective in H.
      apply (proj1 (map_seq_same entropy 64 (drawn w) (drawn w + 64)) H).
    + intros H. f_equal.
      apply (proj2 (map_seq_same entropy 64 (drawn w) (drawn w + 64)) H).
  - split.
    + rewrite Hd2, Hd1. lia.
    + rewrite Hs2, Hs1, <- app_assoc. reflexivity.
Qed.

(** From [st] to [st']: nothing was sent. *)
Definition quiet (st st' : Self) : Prop := sent (snd st') = sent (snd st).

Lemma quiet_refl (st : Self) : quiet st st.
Proof. reflexivity. Qed.

Lemma quiet_trans (st1 st2 st3 : Self) :
  quiet st1 st2 -> quiet st2 st3 -> quiet st1 st3.
Proof. unfold quiet. intros H1 H2. congruence. Qed.

(** However it ends, [refresh_robots] sends its one request. *)
Lemma refresh_robots_sends (s : Session) (w : World) :
  sent (snd (snd (refresh_robots (s, w)))) = sent w ++ [robots_request s].
Proof.
  unfold refresh_robots.
  change (bind (read _headers) ?k (s, w)) with (k (_headers s) (s, w)).
  cbv beta. unfold bind at 1. unfold in_world at 1, requests_get, send.
  cbn [fst snd]. fold (robots_request s).
  destruct (server (sent w) (robots_request s)) as [resp|]; [|reflexivity].
  match goal with
  | |- sent (snd (snd (?m ?st))) = _ =>
      assert (Hq : preserves quiet m)
        by (unfold add_robot; walk quiet_refl quiet_trans; intros; reflexivity);
      rewrite (Hq st)
  end.
  reflexivity.
Qed.

(** An access to [robots] sends the robots request when the set is empty,
    and nothing otherwise. *)
Lemma robots_sends (s : Session) (w : World) :
  is_empty (_robots s) = true ->
  sent (snd (snd (robots (s, w)))) = sent w ++ [robots_request s].
Proof.
  intros H. rewrite robots_fetch by exact H.
  rewrite <- refresh_robots_sends.
  destruct (refresh_robots (s, w)) as [[[]|e] st]; reflexivity.
Qed.

Lemma login_basic_ok
  (email password : string) (w : World) (resp : Response) (body tok : value) :
  server (sent w) (login_request email password w) = Some resp ->
  error_status (status_code resp) = false ->
  json_body resp = Some body ->
  getitem body "access_token" = Ok tok ->
  login_basic email password w
  = (Ok (mkSession (BasicAuthProvider tok) [] [] []
                   (headers_of (BasicAuthProvider tok)) []),
     mkWorld (sent w ++ [login_request email password w]) (disk w)
             (drawn w + 64) (S (header_calls w)) (next_id w) (outside w)).
Proof.
  intros Hserver Hstatus Hjson Htoken.
  unfold login_basic, bind, os_urandom, requests_post, send, lift,
    raise_for_status, resp_json.
  cbn [sent disk drawn header_calls next_id outside].
  unfold login_request in Hserver.
  rewrite Hserver, Hstatus, Hjson, Htoken. reflexivity.
Qed.

(** X6. Login and first use. The session that a successful [login_basic]
    returns has no robots and no maps yet, and the first access to its
    [robots] sends, right after the login request, a GET to
    [urljoin(ENDPOINT, 'users/me/robots')] with the headers
    [Accept: application/vnd.neato.nucleo.v1] and
    [Authorization: Token token=<access_token>], whatever the remote side
    then answers. *)
Theorem login_basic_then_robots
  (email password : string) (w : World) (resp : Response) (body tok : value)
  (Hserver : server (sent w) (login_request email password w) = Some resp)
  (Hstatus : error_status (status_code resp) = false)
  (Hjson : json_body resp = Some body)
  (Htoken : getitem body "access_token" = Ok tok) :
  exists (s : Session) (w' : World),
    login_basic email password w = (Ok s, w') /\
    _robots s = [] /\
    _maps s = [] /\
    sent (snd (snd (robots (s, w'))))
    = sent w ++ [login_request email password w;
                 get_request (urljoin ENDPOINT "users/me/robots")
                   [("Accept", "application/vnd.neato.nucleo.v1");
                    ("Authorization", ("Token token=" ++ py_str tok)%string)]].
Proof.
  eexists; eexists. split.
  - eapply login_basic_ok; eassumption.
  - split; [reflexivity|]. split; [reflexivity|].
    rewrite robots_sends by reflexivity.
    cbn [sent]. rewrite <- app_assoc. reflexivity.
Qed.

(** *** Repeated [refresh_robots] *)

Lemma set_add_fresh (r : Robot) (l : list Robot) :
  (forall a b, robot_eq a b = true -> robot_id a = robot_id b) ->
  Forall (fun x => robot_id x < robot_id r) l ->
  set_add r l = l ++ [r].
Proof.
  intros Hid Hl. unfold set_add.
  destruct (existsb (robot_eq r) l) eqn:E; [|reflexivity].
  apply existsb_exists in E. destruct E as (x & Hx & Heq).
  apply Hid in Heq. rewrite Forall_forall in Hl. specialize (Hl x Hx). lia.
Qed.

Lemma add_all_fresh (ap : AuthProvider) (l : list value) :
  (forall a b, robot_eq a b = true -> robot_id a = robot_id b) ->
  forall (n : nat) (old : list Robot),
    Forall (fun x => robot_id x < n) old ->
    add_all (robots_of ap n l) old = old ++ robots_of ap n l /\
    Forall (fun x => robot_id x < List.length l + n) (old ++ robots_of ap n l).
Proof.
  intros Hid. induction l as [|v l IH]; intros n old Hold.
  - cbn. rewrite app_nil_r. split; [reflexivity | exact Hold].
  - cbn [robots_of add_all fold_left].
    rewrite set_add_fresh; [|exact Hid | exact Hold].
    destruct (IH (S n) (old ++ [robot_of ap n v])) as [Hadd Hids].
    + apply Forall_app. split.
      * apply Forall_impl with (2 := Hold). intros x Hx. lia.
      * repeat constructor.
    + unfold add_all in Hadd. rewrite Hadd. rewrite <- app_assoc in *.
      cbn [app List.length] in *. split; [reflexivity|].
      apply Forall_impl with (2 := Hids). intros x Hx. lia.
Qed.

(** X7. Repeated refreshes pile up when robots are equal only to
    themselves. When equal robots are the same object (as for a class that
    defines no [__eq__]) and the robots of the set were built before now,
    a successful [refresh_robots] adds every robot it builds: the set
    afterwards holds the robots it had and the new ones, one per device
    record, and nothing else, so with [n] records it has grown by exactly
    [n], also when the same devices were fetched before. In which order
    the set then gives its elements is not said. *)
Theorem refresh_robots_accumulates
  (s : Session) (w : World) (resp : Response) (l : list value)
  (Hid : forall a b, robot_eq a b = true -> robot_id a = robot_id b)
  (Hold : Forall (fun r => robot_id r < next_id w) (_robots s))
  (Hserver : server (sent w) (robots_request s) = Some resp)
  (Hstatus : error_status (status_code resp) = false)
  (Hjson : json_body resp = Some (VList l))
  (Hdevices : forallb is_device l = true) :
  let new := robots_of (auth_provider s) (next_id w) l in
  let w' := after_fetch (robots_request s) (List.length l) w in
  exists after : list Robot,
    refresh_robots (s, w) = (Ok tt, (set_robots after s, w')) /\
    List.length after = List.length (_robots s) + List.length l /\
    List.length new = List.length l /\
    (forall x, In x (_robots s) -> In x after) /\
    (forall x, In x new -> In x after) /\
    (forall x, In x after -> In x (_robots s) \/ In x new) /\
    Forall (fun r => robot_id r < next_id w') after.
Proof.
  intros new w'.
  destruct (@add_all_fresh (auth_provider s) l Hid (next_id w) (_robots s) Hold)
    as [Hadd Hids].
  assert (Hnew : List.length new = List.length l).
  { unfold new. clear. generalize (next_id w).
    induction l as [|v l IH]; intros n; cbn; [reflexivity|].
    rewrite IH. reflexivity. }
  exists (_robots s ++ new).
  split.
  - rewrite (@refresh_robots_devices s w resp l) by assumption.
    rewrite Hadd. reflexivity.
  - split; [rewrite length_app, Hnew; reflexivity|].
    split; [exact Hnew|].
    split; [intros x H; apply in_or_app; left; exact H|].
    split; [intros x H; apply in_or_app; right; exact H|].
    split; [intros x H; apply in_app_or; exact H | exact Hids].
Qed.

Lemma set_add_known (r : Robot) (l : list Robot) :
  (exists x, In x l /\ robot_eq r x = true) -> set_add r l = l.
Proof.
  intros H. unfold set_add.
  destruct (existsb (robot_eq r) l) eqn:E; [reflexivity|].
  apply existsb_exists in H. congruence.
Qed.

(** X8. A refresh adds nothing that the set holds already. When each
    robot built from the device records is equal, as [Robot] compares, to
    a robot of the set (as it is after a first fetch of the same devices
    when robots compare by serial), a successful [refresh_robots] leaves
    the session as it was. *)
Theorem refresh_robots_known_devices
  (s : Session) (w : World) (resp : Response) (l : list value)
  (Hknown : Forall (fun v => exists x, In x (_robots s) /\
                      forall id, robot_eq (robot_of (auth_provider s) id v) x = true) l)
  (Hserver : server (sent w) (robots_request s) = Some resp)
  (Hstatus : error_status (status_code resp) = false)
  (Hjson : json_body resp = Some (VList l))
  (Hdevices : forallb is_device l = true) :
  refresh_robots (s, w)
  = (Ok tt, (s, after_fetch (robots_request s) (List.length l) w)).
Proof.
  rewrite (@refresh_robots_devices s w resp l) by assumption.
  assert (Hsame : forall n,
             add_all (robots_of (auth_provider s) n l) (_robots s) = _robots s).
  { clear Hserver Hjson Hdevices.
    induction l as [|v l IH]; intros n; cbn [robots_of add_all fold_left].
    - reflexivity.
    - inversion Hknown as [|v' l' (x & Hx & Heq) Hrest]; subst.
      rewrite set_add_known by (exists x; split; [exact Hx | apply Heq]).
      apply (IH Hrest). }
  rewrite Hsame. destruct s; reflexivity.
Qed.

(** *** The entries of [_maps] *)

(** [d.get(k)] on a dict with hashable keys. *)
Fixpoint dict_get (k : value) (d : list (value * value)) : option value :=
  match d with
  | [] => None
  | (k', v) :: d' => if key_eqb k' k then Some v else dict_get k d'
  end.

Lemma key_eqb_refl (k : value) : hashable k = true -> key_eqb k k = true.
Proof.
  destruct k; cbn; intros H; try reflexivity; try discriminate.
  - destruct b; reflexivity.
  - apply Z.eqb_refl.
  - apply String.eqb_refl.
Qed.

Lemma key_eqb_sym (a b : value) : key_eqb a b = key_eqb b a.
Proof.
  destruct a, b; cbn; try reflexivity.
  - destruct b, b0; reflexivity.
  - apply Z.eqb_sym.
  - apply Z.eqb_sym.
  - apply Z.eqb_sym.
  - apply String.eqb_sym.
Qed.

Lemma key_eqb_true_same (a b c : value) :
  key_eqb a b = true -> key_eqb a c = key_eqb b c.
Proof.
  destruct a, b; cbn; intros H; try discriminate H; try reflexivity.
  - destruct b, b0; try discriminate H; reflexivity.
  - apply Z.eqb_eq in H. subst.
    destruct c; try reflexivity. destruct b, b0; reflexivity.
  - apply Z.eqb_eq in H. subst.
    destruct c; try reflexivity. destruct b, b0; reflexivity.
  - apply Z.eqb_eq in H. subst. reflexivity.
  - apply String.eqb_eq in H. subst. reflexivity.
Qed.

Lemma dict_get_update_same (k v : value) (d : list (value * value)) :
  hashable k = true -> dict_get k (dict_update k v d) = Some v.
Proof.
  intros H. induction d as [|[k' v'] d IH]; cbn.
  - rewrite key_eqb_refl by exact H. reflexivity.
  - destruct (key_eqb k' k) eqn:E; cbn; rewrite E; [reflexivity | exact IH].
Qed.

Lemma dict_get_update_other (k0 v k : value) (d : list (value * value)) :
  key_eqb k0 k = false -> dict_get k (dict_update k0 v d) = dict_get k d.
Proof.
  intros H. induction d as [|[k' v'] d IH]; cbn.
  - rewrite H. reflexivity.
  - destruct (key_eqb k' k0) eqn:E; cbn.
    + rewrite (key_eqb_true_same k' k0 k E), H. reflexivity.
    + rewrite IH. reflexivity.
Qed.

Lemma dict_update_keeps_key (k0 v k : value) (d : list (value * value)) :
  dict_get k d <> None -> dict_get k (dict_update k0 v d) <> None.
Proof.
  induction d as [|[k' v'] d IH]; cbn; intros H.
  - contradiction.
  - destruct (key_eqb k' k0); cbn; destruct (key_eqb k' k);
      try discriminate; try exact H; apply IH; exact H.
Qed.

Lemma store_all_cons (r : Robot) (l : list Robot) (j : value) (js : list value)
  (d : list (value * value)) :
  store_all (r :: l) (j :: js) d = store_all l js (dict_update (serial r) j d).
Proof. reflexivity. Qed.

Lemma store_all_other (k : value) (l : list Robot) :
  (forall r, In r l -> key_eqb (serial r) k = false) ->
  forall (js : list value) (d : list (value * value)),
    dict_get k (store_all l js d) = dict_get k d.
Proof.
  induction l as [|r l IH]; intros Hk js d.
  - reflexivity.
  - destruct js as [|j js]; [reflexivity|].
    rewrite store_all_cons, IH.
    + apply dict_get_update_other. apply Hk. left. reflexivity.
    + intros r' Hr'. apply Hk. right. exact Hr'.
Qed.

Lemma answered_facts (hdrs : Headers) (l : list Robot) :
  forall (h : list Request) (js : list value),
    answered hdrs h l js ->
    List.length l = List.length js /\
    Forall (fun r => hashable (serial r) = true) l.
Proof.
  induction l as [|r l IH]; intros h js H.
  - destruct js; [|contradiction]. split; [reflexivity | constructor].
  - destruct js as [|j js]; [contradiction|].
    cbn [answered] in H. destruct H as (_ & Hhash & Hrest).
    destruct (IH _ _ Hrest) as [Hlen Hall].
    split; [cbn; congruence | constructor; assumption].
Qed.

Lemma store_all_lookup (l : list Robot) :
  forall (js : list value) (d : list (value * value)),
    List.length l = List.length js ->
    Forall (fun r => hashable (serial r) = true) l ->
    ForallOrdPairs (fun a b => key_eqb (serial a) (serial b) = false) l ->
    Forall2 (fun r j => dict_get (serial r) (store_all l js d) = Some j) l js.
Proof.
  induction l as [|r l IH]; intros js d Hlen Hhash Hdist.
  - destruct js; [constructor | discriminate].
  - destruct js as [|j js]; [discriminate|].
    inversion Hhash as [|? ? Hr Hl]; subst.
    inversion Hdist as [|? ? Hrl Hll]; subst.
    constructor.
    + rewrite store_all_cons, store_all_other.
      * apply dict_get_update_same. exact Hr.
      * intros r' Hr'. rewrite key_eqb_sym.
        rewrite Forall_forall in Hrl. apply Hrl. exact Hr'.
    + rewrite store_all_cons. apply IH; [cbn in Hlen; lia | exact Hl | exact Hll].
Qed.

(** X9. What [maps] returns can be looked up by serial. After an access
    to [maps] whose requests are all answered, for robots whose serials
    differ as dict keys, the returned dict (which is [_maps]) gives under
    the serial of each robot the JSON that was answered for it; the entry
    of a key that is the serial of no robot is what it was before. *)
Theorem maps_lookup_by_serial
  (s : Session) (w : World) (rs : list Robot) (s1 : Session) (w1 : World)
  (js : list value)
  (Hrobots : robots (s, w) = (Ok rs, (s1, w1)))
  (Hanswered : answered (_headers s1) (sent w1) rs js)
  (Hdistinct : ForallOrdPairs (fun a b => key_eqb (serial a) (serial b) = false) rs) :
  exists (m : list (value * value)) (st' : Self),
    maps (s, w) = (Ok m, st') /\
    _maps (fst st') = m /\
    Forall2 (fun r j => dict_get (serial r) m = Some j) rs js /\
    (forall k, (forall r, In r rs -> key_eqb (serial r) k = false) ->
               dict_get k m = dict_get k (_maps s1)).
Proof.
  destruct (answered_facts _ _ _ _ Hanswered) as [Hlen Hhash].
  eexists; eexists. split; [|split; [|split]].
  - apply maps_access with (1 := Hrobots) (2 := Hanswered).
  - reflexivity.
  - apply store_all_lookup; assumption.
  - intros k Hk. apply store_all_other. exact Hk.
Qed.

(** From [st] to [st']: every key of [_maps] is still a key. *)
Definition keys_kept (st st' : Self) : Prop :=
  forall k, dict_get k (_maps (fst st)) <> None ->
            dict_get k (_maps (fst st')) <> None.

Lemma keys_kept_refl (st : Self) : keys_kept st st.
Proof. intros k H. exact H. Qed.

Lemma keys_kept_trans (st1 st2 st3 : Self) :
  keys_kept st1 st2 -> keys_kept st2 st3 -> keys_kept st1 st3.
Proof. intros H1 H2 k H. apply H2, H1, H. Qed.

Lemma collect_persistent_keeps_session (rs : list Robot) :
  forall (acc : list (value * value)) (s : Session) (w : World),
    fst (snd (collect_persistent rs acc (s, w))) = s /\
    sent (snd (snd (collect_persistent rs acc (s, w)))) = sent w /\
    disk (snd (snd (collect_persistent rs acc (s, w)))) = disk w /\
    drawn (snd (snd (collect_persistent rs acc (s, w)))) = drawn w /\
    header_calls (snd (snd (collect_persistent rs acc (s, w)))) = header_calls w.
Proof.
  induction rs as [|r rs IH]; intros acc s w; cbn [collect_persistent].
  - repeat split.
  - unfold bind, in_world, in_outside. cbn [fst snd].
    destruct (robot_persistent_maps r (outside w)) as [[v|e] o]; [|repeat split].
    destruct (hashable (serial r)); [|repeat split].
    apply (IH _ s (mkWorld (sent w) (disk w) (drawn w) (header_calls w)
                           (next_id w) o)).
Qed.

Lemma call_keys_kept (c : Call) : preserves keys_kept (call c).
Proof.
  assert (Hrobots : preserves keys_kept robots).
  { unfold robots, refresh_robots, add_robot.
    walk keys_kept_refl keys_kept_trans; intros; intros k H; exact H. }
  assert (Hmaps : preserves keys_kept refresh_maps).
  { unfold refresh_maps.
    apply preserves_bind; [exact keys_kept_trans | exact Hrobots | intros rs].
    unfold fetch_maps.
    walk keys_kept_refl keys_kept_trans; intros; intros k H;
      try exact H.
    cbn. apply dict_update_keeps_key. exact H. }
  destruct c; cbn [call].
  - apply preserves_bind; [exact keys_kept_trans | exact Hrobots |].
    intros; apply preserves_ret, keys_kept_refl.
  - apply preserves_bind; [exact keys_kept_trans | | intros; apply preserves_ret, keys_kept_refl].
    unfold maps.
    apply preserves_bind; [exact keys_kept_trans | exact Hmaps |].
    intros; apply preserves_read, keys_kept_refl.
  - unfold refresh_robots, add_robot.
    walk keys_kept_refl keys_kept_trans; intros; intros k H; exact H.
  - exact Hmaps.
  - apply preserves_bind; [exact keys_kept_trans | | intros; apply preserves_ret, keys_kept_refl].
    unfold persistent_maps.
    apply preserves_bind; [exact keys_kept_trans | exact Hrobots | intros rs].
    intros [s w] k H. cbn [fst] in *.
    rewrite (proj1 (collect_persistent_keeps_session rs [] s w)). exact H.
  - apply preserves_bind; [exact keys_kept_trans | | intros; apply preserves_ret, keys_kept_refl].
    apply preserves_in_world. intros s w k H. exact H.
Qed.

(** X10. No entry of [_maps] is ever removed. A key that [_maps] holds is
    still a key of [_maps] after any sequence of calls on the session,
    whatever the calls end in: the entry of a robot that is gone from the
    account, or whose maps could not be fetched, stays. *)
Theorem maps_entries_never_removed (cs : list Call) (st : Self) (k : value)
  (Hkey : dict_get k (_maps (fst st)) <> None) :
  dict_get k (_maps (fst (calls cs st))) <> None.
Proof.
  revert st Hkey. induction cs as [|c cs IH]; intros st Hkey; cbn [calls].
  - exact Hkey.
  - apply IH. apply (call_keys_kept c st). exact Hkey.
Qed.

(** *** The file that [get_map_image] writes *)

Lemma break_at_none (sep : ascii) (x : list ascii) :
  ~ In sep x -> break_at sep x = (x, None).
Proof.
  induction x as [|c x IH]; intros H; cbn; [reflexivity|].
  destruct (Ascii.eqb c sep) eqn:E.
  - apply Ascii.eqb_eq in E. subst c. exfalso. apply H. left. reflexivity.
  - rewrite IH; [reflexivity|]. intros Hin. apply H. right. exact Hin.
Qed.

Lemma break_at_sep (sep : ascii) (x rest : list ascii) :
  ~ In sep x -> break_at sep (x ++ sep :: rest) = (x, Some rest).
Proof.
  induction x as [|c x IH]; intros H; cbn.
  - rewrite Ascii.eqb_refl. reflexivity.
  - destruct (Ascii.eqb c sep) eqn:E.
    + apply Ascii.eqb_eq in E. subst c. exfalso. apply H. left. reflexivity.
    + rewrite IH; [reflexivity|]. intros Hin. apply H. right. exact Hin.
Qed.

Lemma rev_around (sep : ascii) (x y : list ascii) :
  rev (x ++ sep :: y) = rev y ++ sep :: rev x.
Proof.
  rewrite rev_app_distr. cbn [rev]. rewrite <- app_assoc. reflexivity.
Qed.

Lemma not_in_rev (sep : ascii) (x : list ascii) : ~ In sep x -> ~ In sep (rev x).
Proof. intros H Hin. apply H. apply in_rev. exact Hin. Qed.

Lemma chars_around (x y : string) :
  list_ascii_of_string (x ++ "/" ++ y)
  = list_ascii_of_string x ++ "/"%char :: list_ascii_of_string y.
Proof. rewrite list_ascii_of_string_app. reflexivity. Qed.

(** [(p + '/' + a + '/' + b).rsplit('/', 2)] and [.rsplit('/', 1)] when
    [a] and [b] hold no slash. *)
Lemma rsplit_last_two (p a b : string) :
  no_slash a -> no_slash b ->
  rsplit "/" 2 (p ++ "/" ++ a ++ "/" ++ b) = [p; a; b] /\
  rsplit "/" 1 (p ++ "/" ++ a ++ "/" ++ b) = [(p ++ "/" ++ a)%string; b].
Proof.
  unfold no_slash. intros Ha Hb. split.
  - unfold rsplit. rewrite chars_around, chars_around.
    change (list_ascii_of_string p ++ "/"%char ::
              list_ascii_of_string a ++ "/"%char :: list_ascii_of_string b)
      with (list_ascii_of_string p ++
              ("/"%char :: list_ascii_of_string a) ++
              "/"%char :: list_ascii_of_string b).
    rewrite app_assoc, rev_around, rev_around.
    cbn [splitn]. rewrite break_at_sep by (apply not_in_rev; exact Hb).
    rewrite break_at_sep by (apply not_in_rev; exact Ha).
    cbn [map rev app]. rewrite !rev_involutive.
    rewrite !string_of_list_ascii_of_string. reflexivity.
  - unfold rsplit.
    replace (p ++ "/" ++ a ++ "/" ++ b)%string
      with ((p ++ "/" ++ a) ++ "/" ++ b)%string.
    + rewrite chars_around, rev_around.
      cbn [splitn]. rewrite break_at_sep by (apply not_in_rev; exact Hb).
      cbn [map rev app]. rewrite !rev_involutive.
      rewrite !string_of_list_ascii_of_string. reflexivity.
    + clear. induction p as [|c p IH]; cbn; [reflexivity|].
      cbn in IH. rewrite IH. reflexivity.
Qed.

(** [t.split('?')[0]] is the text before the first question mark. *)
Lemma split_before_query (t f q : string) :
  t = (f ++ q)%string ->
  ~ In "?"%char (list_ascii_of_string f) ->
  q = "" \/ (exists rest, q = String "?" rest) ->
  index (split "?" t) 0 = Ok f.
Proof.
  intros Ht Hf Hq. subst t. unfold split, index.
  rewrite list_ascii_of_string_app.
  destruct Hq as [Hq | (rest & Hq)]; subst q.
  - cbn [list_ascii_of_string]. rewrite app_nil_r.
    destruct (String.length (f ++ "")); cbn [splitn].
    + cbn. rewrite string_of_list_ascii_of_string. reflexivity.
    + rewrite break_at_none by exact Hf.
      cbn. rewrite string_of_list_ascii_of_string. reflexivity.
  - cbn [list_ascii_of_string].
    destruct (String.length (f ++ String "?" rest)) eqn:E.
    + exfalso. clear - E. induction f; cbn in E; discriminate.
    + cbn [splitn]. rewrite break_at_sep by exact Hf.
      cbn. rewrite string_of_list_ascii_of_string. reflexivity.
Qed.

(** X11. The name of the image file. Let [a] and [b] be the last two
    parts of the whole URL between slashes (the query string is not taken
    off first, so a slash in it counts). The file that [get_map_image]
    writes is [dest_path] joined with the text of [a + '-' + b] before its
    first question mark; nothing of the URL before [a] is in the name. *)
Theorem get_map_image_file_name
  (p a b f q dest : string) (w : World) (image : Response)
  (Ha : no_slash a)
  (Hb : no_slash b)
  (Hname : (a ++ "-" ++ b)%string = (f ++ q)%string)
  (Hf : ~ In "?"%char (list_ascii_of_string f))
  (Hq : q = "" \/ (exists rest, q = String "?" rest))
  (Hdest : truthy (Some dest) = true)
  (Hserver : server (sent w) (stream_request (p ++ "/" ++ a ++ "/" ++ b)) = Some image)
  (Hstatus : error_status (status_code image) = false)
  (Hopen : openable (os_path_join dest f) = true) :
  get_map_image (p ++ "/" ++ a ++ "/" ++ b) (Some dest) w
  = (Ok (mkRawStream image []),
     wrote (stream_request (p ++ "/" ++ a ++ "/" ++ b)) (os_path_join dest f)
           (raw image) w).
Proof.
  destruct (rsplit_last_two p Ha Hb) as [H2 H1].
  unfold get_map_image, bind, requests_get_stream, send.
  rewrite Hserver, Hdest, H2, H1.
  cbn [index nth_error lift].
  rewrite (@split_before_query (a ++ "-" ++ b) f q Hname Hf Hq).
  unfold raise_for_status. rewrite Hstatus.
  unfold write_file. cbn [sent disk drawn header_calls next_id outside].
  rewrite Hopen. reflexivity.
Qed.

(** *** [persistent_maps] *)

(** The collaborator hands out the values [vs] for the robots [rs], asked
    in turn from the state [o], and is left in the state [o']; the serial
    of each robot can be a dict key. *)
Fixpoint told (o : Outside) (rs : list Robot) (vs : list value) (o' : Outside)
  : Prop :=
  match rs, vs with
  | [], [] => o' = o
  | r :: rs', v :: vs' =>
      exists o1, robot_persistent_maps r o = (Ok v, o1) /\
                 hashable (serial r) = true /\
                 told o1 rs' vs' o'
  | _, _ => False
  end.

Definition with_outside (o : Outside) (w : World) : World :=
  mkWorld (sent w) (disk w) (drawn w) (header_calls w) (next_id w) o.

Lemma with_outside_same (w : World) : with_outside (outside w) w = w.
Proof. destruct w; reflexivity. Qed.

Lemma collect_persistent_ok (rs : list Robot) :
  forall (vs : list value) (acc : list (value * value)) (s : Session)
         (w : World) (o' : Outside),
    told (outside w) rs vs o' ->
    collect_persistent rs acc (s, w)
    = (Ok (store_all rs vs acc), (s, with_outside o' w)).
Proof.
  induction rs as [|r rs IH]; intros vs acc s w o' H.
  - destruct vs; [|contradiction]. cbn in H. subst o'.
    cbn. rewrite with_outside_same. reflexivity.
  - destruct vs as [|v vs]; [contradiction|].
    cbn [told] in H. destruct H as (o1 & Hr & Hhash & Hrest).
    cbn [collect_persistent]. unfold bind, in_world, in_outside.
    cbn [fst snd]. rewrite Hr, Hhash.
    rewrite (IH vs _ s _ o'); [reflexivity | exact Hrest].
Qed.

(** X12. [persistent_maps] builds its dict anew and stores nothing. On a
    session whose robots are fetched, the access sends no request of the
    module and leaves the session as it was, however it ends. When the
    collaborator hands out a value for every robot the result is a dict
    from serial to value, filled in the order of the robots; when it
    raises for a robot, after the robots [l1] were served, the access
    raises the same at once, and when the serial of that robot cannot be a
    dict key it raises [TypeError] once the robot was asked. *)
Theorem persistent_maps_on_fetched_session (s : Session) (w : World)
  (Hcached : is_empty (_robots s) = false) :
  fst (snd (persistent_maps (s, w))) = s /\
  sent (snd (snd (persistent_maps (s, w)))) = sent w /\
  (forall vs o',
      told (outside w) (_robots s) vs o' ->
      persistent_maps (s, w)
      = (Ok (store_all (_robots s) vs []), (s, with_outside o' w))) /\
  (forall l1 r l2 vs o1 e o2,
      _robots s = l1 ++ r :: l2 ->
      told (outside w) l1 vs o1 ->
      robot_persistent_maps r o1 = (Raise e, o2) ->
      persistent_maps (s, w) = (Raise e, (s, with_outside o2 w))) /\
  (forall l1 r l2 vs o1 v o2,
      _robots s = l1 ++ r :: l2 ->
      told (outside w) l1 vs o1 ->
      robot_persistent_maps r o1 = (Ok v, o2) ->
      hashable (serial r) = false ->
      persistent_maps (s, w) = (Raise TypeError, (s, with_outside o2 w))).
Proof.
  assert (Hrun : persistent_maps (s, w) = collect_persistent (_robots s) [] (s, w)).
  { unfold persistent_maps, bind. rewrite robots_cached by exact Hcached.
    reflexivity. }
  assert (Hpre : forall l1 rest vs acc o1,
             told (outside w) l1 vs o1 ->
             collect_persistent (l1 ++ rest) acc (s, w)
             = collect_persistent rest (store_all l1 vs acc) (s, with_outside o1 w)).
  { clear. intros l1 rest. revert w.
    induction l1 as [|r l1 IH]; intros w vs acc o1 H.
    - destruct vs; [|contradiction]. cbn in H. subst o1.
      rewrite with_outside_same. reflexivity.
    - destruct vs as [|v vs]; [contradiction|].
      cbn [told] in H. destruct H as (o & Hr & Hhash & Hrest).
      cbn [app collect_persistent]. unfold bind, in_world, in_outside.
      cbn [fst snd]. rewrite Hr, Hhash.
      apply (IH (mkWorld (sent w) (disk w) (drawn w) (header_calls w)
                         (next_id w) o) vs _ o1 Hrest). }
  rewrite Hrun.
  destruct (collect_persistent_keeps_session (_robots s) [] s w)
    as (Hs & Hsent & _).
  split; [exact Hs|]. split; [exact Hsent|]. split; [|split].
  - intros vs o' H. apply collect_persistent_ok. exact H.
  - intros l1 r l2 vs o1 e o2 Hl Hl1 Hr.
    rewrite Hl, (Hpre l1 (r :: l2) vs [] o1 Hl1).
    cbn [collect_persistent]. unfold bind, in_world, in_outside.
    cbn [fst snd with_outside outside]. rewrite Hr. reflexivity.
  - intros l1 r l2 vs o1 v o2 Hl Hl1 Hr Hhash.
    rewrite Hl, (Hpre l1 (r :: l2) vs [] o1 Hl1).
    cbn [collect_persistent]. unfold bind, in_world, in_outside.
    cbn [fst snd with_outside outside]. rewrite Hr, Hhash. reflexivity.
Qed.

(** *** What the calls leave alone *)

(** A call that writes no file: any call but [get_map_image] with a
    destination. *)
Definition no_file_call (c : Call) : bool :=
  match c with
  | CallGetMapImage _ dest_path => negb (truthy dest_path)
  | _ => true
  end.

(** From [st] to [st']: no random byte was drawn and no file written. *)
Definition untouched (st st' : Self) : Prop :=
  drawn (snd st') = drawn (snd st) /\ disk (snd st') = disk (snd st).

Lemma untouched_refl (st : Self) : untouched st st.
Proof. split; reflexivity. Qed.

Lemma untouched_trans (st1 st2 st3 : Self) :
  untouched st1 st2 -> untouched st2 st3 -> untouched st1 st3.
Proof. intros [H1 H2] [H3 H4]. split; congruence. Qed.

Lemma get_map_image_drawn (u : string) (d : option string) (w : World) :
  drawn (snd (get_map_image u d w)) = drawn w /\
  (truthy d = false -> disk (snd (get_map_image u d w)) = disk w).
Proof.
  unfold get_map_image, bind, requests_get_stream, send, lift, write_file, ret.
  destruct (server (sent w) (stream_request u)); [|split; reflexivity].
  destruct (truthy d); [|split; reflexivity].
  split; [|discriminate].
  destruct (index (rsplit "/" 2 u) 1); [|reflexivity].
  destruct (index (rsplit "/" 1 u) 1); [|reflexivity].
  destruct (index (split "?" _) 0); [|reflexivity].
  destruct (raise_for_status r); [|reflexivity].
  destruct (openable _); reflexivity.
Qed.

Lemma call_untouched (c : Call) :
  no_file_call c = true -> preserves untouched (call c).
Proof.
  intros Hc.
  assert (Hrobots : preserves untouched robots).
  { unfold robots, refresh_robots, add_robot.
    walk untouched_refl untouched_trans; intros;
      try (unfold requests_get, send;
           match goal with
           | |- context [server ?h ?q] => destruct (server h q)
           end);
      split; reflexivity. }
  assert (Hmaps : preserves untouched refresh_maps).
  { unfold refresh_maps.
    apply preserves_bind; [exact untouched_trans | exact Hrobots | intros rs].
    unfold fetch_maps.
    walk untouched_refl untouched_trans; intros;
      try (unfold requests_get, send;
           match goal with
           | |- context [server ?h ?q] => destruct (server h q)
           end);
      split; reflexivity. }
  destruct c; cbn [call].
  - apply preserves_bind; [exact untouched_trans | exact Hrobots |].
    intros; apply preserves_ret, untouched_refl.
  - apply preserves_bind; [exact untouched_trans | | intros; apply preserves_ret, untouched_refl].
    unfold maps.
    apply preserves_bind; [exact untouched_trans | exact Hmaps |].
    intros; apply preserves_read, untouched_refl.
  - unfold refresh_robots, add_robot.
    walk untouched_refl untouched_trans; intros;
      try (unfold requests_get, send;
           match goal with
           | |- context [server ?h ?q] => destruct (server h q)
           end);
      split; reflexivity.
  - exact Hmaps.
  - apply preserves_bind; [exact untouched_trans | | intros; apply preserves_ret, untouched_refl].
    unfold persistent_maps.
    apply preserves_bind; [exact untouched_trans | exact Hrobots | intros rs].
    intros [s w].
    destruct (collect_persistent_keeps_session rs [] s w) as (_ & _ & Hd & Hr & _).
    split; assumption.
  - apply preserves_bind; [exact untouched_trans | | intros; apply preserves_ret, untouched_refl].
    apply preserves_in_world. intros s w.
    cbn [no_file_call] in Hc. apply negb_true_iff in Hc.
    destruct (get_map_image_drawn u dest_path w) as [Hr Hd].
    split; [exact Hr | exact (Hd Hc)].
Qed.

Lemma call_draws_nothing (c : Call) (st : Self) :
  drawn (snd (snd (call c st))) = drawn (snd st).
Proof.
  destruct (no_file_call c) eqn:E.
  - exact (proj1 (call_untouched c E st)).
  - destruct c; try discriminate E. destruct st as [s w].
    cbn [call]. unfold bind, in_world. cbn [fst snd].
    pose proof (proj1 (get_map_image_drawn u dest_path w)) as H.
    destruct (get_map_image u dest_path w) as [[x|e] w']; exact H.
Qed.

(** X13. Only the login draws random bytes, and only [get_map_image]
    with a destination writes a file. No sequence of calls on a session
    moves the position in [os.urandom], so the nonce of a later login does
    not depend on what sessions did in between; and a sequence without a
    [get_map_image] that has a destination leaves the disk as it was. *)
Theorem calls_draw_nothing_write_nothing (cs : list Call) (st : Self) :
  drawn (snd (calls cs st)) = drawn (snd st) /\
  (forallb no_file_call cs = true -> disk (snd (calls cs st)) = disk (snd st)).
Proof.
  revert st. induction cs as [|c cs IH]; intros st; cbn [calls forallb].
  - split; reflexivity.
  - destruct (IH (snd (call c st))) as [Hr Hd]. split.
    + rewrite Hr. apply call_draws_nothing.
    + intros H. apply andb_prop in H. destruct H as [Hc Hcs].
      rewrite (Hd Hcs). exact (proj2 (call_untouched c Hc st)).
Qed.

(** X14. An account with no robot. While the remote list of devices is
    empty, an access to [maps] on a session whose [_robots] is empty sends
    the robots request and no other, returns [_maps] as it is and leaves
    the session as it was. *)
Theorem maps_on_empty_account
  (s : Session) (w : World) (resp : Response)
  (Hempty : _robots s = [])
  (Hserver : server (sent w) (robots_request s) = Some resp)
  (Hstatus : error_status (status_code resp) = false)
  (Hjson : json_body resp = Some (VList [])) :
  maps (s, w) = (Ok (_maps s), (s, sent_more [robots_request s] w)).
Proof.
  unfold maps, refresh_maps, bind.
  rewrite robots_fetch by (rewrite Hempty; reflexivity).
  rewrite (@refresh_robots_devices s w resp []) by (assumption || reflexivity).
  cbn [robots_of add_all fold_left fst List.length for_each ret read].
  replace (set_robots (_robots s) s) with s by (destruct s; reflexivity).
  rewrite Hempty. reflexivity.
Qed.

End Account.

(** ** The model on concrete inputs *)

Example rsplit_image_url :
  rsplit "/" 2 demo_image_url
  = ["https://example.com/maps"; "42"; "image.png?sig=1"].
Proof. reflexivity. Qed.

Example rsplit_one_slash : rsplit "/" 2 "a/b" = ["a"; "b"].
Proof. reflexivity. Qed.

Example rsplit_no_slash : index (rsplit "/" 2 "ab") 1 = Raise IndexError.
Proof. reflexivity. Qed.

Example split_query : split "?" "42-image.png?sig=1" = ["42-image.png"; "sig=1"].
Proof. reflexivity. Qed.

Example hexlify_bytes : hexlify [x00; xff; x2a] = "00ff2a".
Proof. reflexivity. Qed.

Example os_path_join_dir : os_path_join "/tmp/" "a.png" = "/tmp/a.png".
Proof. reflexivity. Qed.

Example dict_update_equal_key :
  dict_update (VBool true) (VStr "new") [(VInt 1, VStr "old")]
  = [(VInt 1, VStr "new")].
Proof. reflexivity. Qed.

(** The map image lands in [/tmp/42-image.png]. *)
Example image_written :
  disk (snd (get_map_image demo_error_status (demo_server 200) demo_openable
                           demo_image_url (Some "/tmp") (fresh_world tt)))
  = [("/tmp/42-image.png", [x89; x50; x4e; x47])].
Proof. reflexivity. Qed.

(** A remote list with the one device [R1] of serial [S1] gives a set with
    one robot, of serial [S1]. *)
Example one_device_one_robot :
  fst (robots demo_urljoin demo_error_status demo_robot_eq
              (fun _ _ => Some (mkResponse 200 (Some (VList [device "R1" "S1" "K1"])) []))
              (demo_session, fresh_world tt))
  = Ok [mkRobot 0 (VStr "R1") (VStr "S1") (VStr "K1") (VList []) demo_provider].
Proof. reflexivity. Qed.

(** A device record without [secret_key] stops [refresh_robots] with a
    [KeyError]; the robot before it stays in the set. *)
Example missing_key_keeps_earlier_robot :
  let out :=
    refresh_robots demo_urljoin demo_error_status demo_robot_eq
      (fun _ _ => Some (mkResponse 200
                          (Some (VList [device "R1" "S1" "K1";
                                        VDict [("name", VStr "R2");
                                               ("serial", VStr "S2")]])) []))
      (demo_session, fresh_world tt) in
  fst out = Raise (KeyError "secret_key") /\
  _robots (fst (snd out)) = [demo_robot 0 "R1" "S1" "K1"].
Proof. split; reflexivity. Qed.

(** ** The theorems on the small account *)

(** Two accesses to [robots] on the account with three robots: one request. *)
Lemma robots_memoized_witness :
  requests_during
    (access_robots demo_urljoin demo_error_status demo_robot_eq (demo_server 200) 2)
    (demo_session, fresh_world tt) = 1.
Proof.
  destruct (@robots_memoized_when_populated
              demo_urljoin demo_error_status demo_robot_eq (demo_server 200)
              unit demo_session (fresh_world tt)
              (mkResponse 200
                 (Some (VList [device "R1" "S1" "K1"; device "R2" "S2" "K2";
                               device "R3" "S3" "K3"])) [])
              (device "R1" "S1" "K1")
              [device "R2" "S2" "K2"; device "R3" "S3" "K3"]
              eq_refl eq_refl eq_refl eq_refl eq_refl)
    as (rs & st1 & _ & _ & _ & _ & _ & H).
  exact H.
Defined.

(** C1 as it is written fails on an account with no robot: the first fetch
    leaves [_robots] empty, so the second access fetches again and two
    accesses send two requests, not one. *)
Lemma robots_twice_on_empty_account_two_requests :
  requests_during
    (access_robots demo_urljoin demo_error_status demo_robot_eq
                   empty_account_server 2)
    (demo_session, fresh_world tt) = 2 /\
  requests_during
    (access_robots demo_urljoin demo_error_status demo_robot_eq
                   empty_account_server 2)
    (demo_session, fresh_world tt) <> 1.
Proof.
  split; [reflexivity | discriminate].
Qed.

(** Three accesses to [robots] on the account with no robot: three requests. *)
Lemma robots_refetches_witness :
  requests_during
    (access_robots demo_urljoin demo_error_status demo_robot_eq
                   empty_account_server 3)
    (demo_session, fresh_world tt) = 3.
Proof.
  refine (proj2 (proj2 (@robots_refetches_while_empty
                          demo_urljoin demo_error_status demo_robot_eq
                          empty_account_server unit demo_session
                          (fresh_world tt) 3 eq_refl _))).
  intros k _. eexists. repeat split.
Defined.

(** A first access to [maps] on the account with three robots: the request
    for the robots, then three requests for maps. *)
Lemma maps_refreshes_witness :
  requests_during
    (maps demo_urljoin demo_str_of demo_error_status demo_robot_eq
          (demo_server 200) (Outside:=unit))
    (demo_session, fresh_world tt) = 4.
Proof.
  pose proof (@maps_refreshes_on_every_access
                demo_urljoin demo_str_of demo_error_status demo_robot_eq
                (demo_server 200) unit demo_session (fresh_world tt)
                (_robots demo_session_fetched) demo_session_fetched
                (after_fetch (robots_request demo_urljoin demo_session) 3
                             (fresh_world tt))
                [VList [VStr "map1"]; VList [VStr "map2"]; VList [VStr "map3"]]
                eq_refl) as H.
  assert (Hanswered :
            answered demo_urljoin demo_str_of demo_error_status (demo_server 200)
              (_headers demo_session_fetched)
              (sent (after_fetch (robots_request demo_urljoin demo_session) 3
                                 (fresh_world tt)))
              (_robots demo_session_fetched)
              [VList [VStr "map1"]; VList [VStr "map2"]; VList [VStr "map3"]]).
  { repeat (split; [eexists; repeat split; reflexivity |]; split; [reflexivity|]).
    exact I. }
  destruct (H Hanswered) as (_ & _ & _ & Hsent & _).
  unfold requests_during. rewrite Hsent. reflexivity.
Defined.

(** [refresh_maps] when the maps of the second of three robots are served
    with status 500: the call raises, [_maps] holds the entry of the first
    robot only and two requests were sent. *)
Lemma refresh_maps_partial_witness :
  exists (e : exn) (st : Session * World unit),
    refresh_maps demo_urljoin demo_str_of demo_error_status demo_robot_eq
                 (demo_server 500) (demo_session_fetched, fresh_world tt)
    = (Raise e, st) /\
    _maps (fst st) = [(VStr "S1", VList [VStr "map1"])] /\
    List.length (sent (snd st)) = 2.
Proof.
  eexists; eexists. split.
  - refine (@refresh_maps_partial_on_failure
              demo_urljoin demo_str_of demo_error_status demo_robot_eq
              (demo_server 500) unit demo_session_fetched (fresh_world tt)
              [demo_robot 0 "R1" "S1" "K1"] [demo_robot 2 "R3" "S3" "K3"]
              (demo_robot 1 "R2" "S2" "K2")
              demo_session_fetched (fresh_world tt)
              [VList [VStr "map1"]]
              (mkResponse 500 (Some (VList [VStr "map2"])) [])
              eq_refl _ eq_refl eq_refl).
    cbn. repeat esplit.
  - split; reflexivity.
Defined.

(** [get_map_image] on the image URL: with no destination and status 500 it
    returns the stream; with a destination and status 500 it raises; with
    a destination and status 200 it writes the file. *)
Lemma get_map_image_witness :
  (exists img,
      get_map_image demo_error_status (demo_server 500) demo_openable
                    demo_image_url None (fresh_world tt)
      = (Ok (mkRawStream img (raw img)),
         sent_more [stream_request demo_image_url] (fresh_world tt))) /\
  (exists e,
      get_map_image demo_error_status (demo_server 500) demo_openable
                    demo_image_url (Some "/tmp") (fresh_world tt)
      = (Raise e, sent_more [stream_request demo_image_url] (fresh_world tt))) /\
  (exists img fn,
      get_map_image demo_error_status (demo_server 200) demo_openable
                    demo_image_url (Some "/tmp") (fresh_world tt)
      = (Ok (mkRawStream img []),
         wrote (stream_request demo_image_url) (os_path_join "/tmp" fn)
               (raw img) (fresh_world tt))).
Proof.
  pose proof (@get_map_image_two_modes
                demo_error_status (demo_server 500) demo_openable unit
                demo_image_url None (fresh_world tt)
                (mkResponse 500 None [x89; x50; x4e; x47]) eq_refl) as Hnone.
  pose proof (@get_map_image_two_modes
                demo_error_status (demo_server 500) demo_openable unit
                demo_image_url (Some "/tmp") (fresh_world tt)
                (mkResponse 500 None [x89; x50; x4e; x47]) eq_refl) as Hbad.
  pose proof (@get_map_image_two_modes
                demo_error_status (demo_server 200) demo_openable unit
                demo_image_url (Some "/tmp") (fresh_world tt)
                (mkResponse 200 None [x89; x50; x4e; x47]) eq_refl) as Hgood.
  split; [|split].
  - eexists. exact (proj1 (proj1 Hnone eq_refl)).
  - destruct (proj1 (proj2 Hbad) eq_refl eq_refl) as (e & He & _).
    exists e. exact He.
  - destruct (proj2 (proj2 Hgood) "/tmp" eq_refl eq_refl eq_refl)
      as (fn & _ & _ & Hopen & _).
    + vm_compute. auto 10.
    + eexists. exists fn. exact (Hopen eq_refl).
Defined.

(** [login_basic] against the remote side that hands out the token ["abc"]. *)
Lemma login_basic_witness :
  exists (s : Session) (w' : World unit),
    login_basic demo_urljoin demo_str_of demo_error_status (demo_server 200)
                demo_entropy "user@example.com" "secret" (fresh_world tt)
    = (Ok s, w') /\
    lookup "Authorization" (_headers s) = Some "Token token=abc" /\
    List.length (sent w') = 1 /\
    sent w'
    = [post_request "https://beehive.neatocloud.com/sessions"
         (VDict [("email", VStr "user@example.com");
                 ("password", VStr "secret");
                 ("platform", VStr "ios");
                 ("token",
                  VStr "000102030405060708090a0b0c0d0e0f101112131415161718191a1b1c1d1e1f202122232425262728292a2b2c2d2e2f303132333435363738393a3b3c3d3e3f")])
         [("Accept", "application/vnd.neato.nucleo.v1")]] /\
    drawn w' = 64.
Proof.
  destruct (@login_basic_nonce_and_token
              demo_urljoin demo_str_of demo_error_status (demo_server 200)
              demo_entropy unit "user@example.com" "secret" (fresh_world tt)
              (mkResponse 201 (Some (VDict [("access_token", VStr "abc")])) [])
              (VDict [("access_token", VStr "abc")]) (VStr "abc")
              eq_refl eq_refl eq_refl eq_refl)
    as (s & w' & Hrun & Hsent & Hdrawn & _ & _ & _ & _ & _ & _ & Hauth & _).
  exists s, w'. split; [exact Hrun|]. split; [exact Hauth|].
  split; [rewrite Hsent; reflexivity|].
  split; [rewrite Hsent; reflexivity | exact Hdrawn].
Defined.


(** ** The further properties on the small account *)

(** [refresh_robots] against a remote side that answers 401. *)
Lemma refresh_robots_fails_witness :
  refresh_robots demo_urljoin demo_error_status demo_robot_eq rejecting_server
                 (demo_session, fresh_world tt)
  = (Raise (HTTPError (mkResponse 401 None [])),
     (demo_session,
      sent_more [robots_request demo_urljoin demo_session] (fresh_world tt))).
Proof.
  exact (proj1 (proj2 (@refresh_robots_fails_before_loop
                         demo_urljoin demo_error_status demo_robot_eq
                         rejecting_server unit demo_session (fresh_world tt)))
               (mkResponse 401 None []) eq_refl eq_refl).
Defined.


(** An access to [robots] that fails, and the next one that succeeds. *)
Lemma robots_failure_not_cached_witness :
  robots demo_urljoin demo_error_status demo_robot_eq recovering_server
         (demo_session, fresh_world tt)
  = (Raise (HTTPError (mkResponse 503 None [])),
     (demo_session,
      sent_more [robots_request demo_urljoin demo_session] (fresh_world tt))).
Proof.
  exact (proj1 (@robots_failure_not_cached
                  demo_urljoin demo_str_of demo_error_status demo_robot_eq
                  recovering_server unit demo_persistent_maps
                  demo_session (fresh_world tt) (mkResponse 503 None [])
                  eq_refl eq_refl eq_refl)).
Defined.

(** [login_basic] against a remote side that answers 401. *)
Lemma login_basic_fails_witness :
  fst (login_basic demo_urljoin demo_str_of demo_error_status rejecting_server
                   demo_entropy "user@example.com" "wrong" (fresh_world tt))
  = Raise (HTTPError (mkResponse 401 None [])).
Proof.
  rewrite (proj1 (proj2 (@login_basic_failures
                           demo_urljoin demo_str_of demo_error_status
                           rejecting_server demo_entropy unit
                           "user@example.com" "wrong" (fresh_world tt)))
                 (mkResponse 401 None []) eq_refl eq_refl).
  reflexivity.
Defined.

(** Login, then the first access to [robots]: two requests. *)
Lemma login_basic_then_robots_witness :
  exists (s : Session) (w' : World unit),
    login_basic demo_urljoin demo_str_of demo_error_status (demo_server 200)
                demo_entropy "user@example.com" "secret" (fresh_world tt)
    = (Ok s, w') /\
    List.length
      (sent (snd (snd (robots demo_urljoin demo_error_status demo_robot_eq
                              (demo_server 200) (s, w'))))) = 2.
Proof.
  destruct (@login_basic_then_robots
              demo_urljoin demo_str_of demo_error_status demo_robot_eq
              (demo_server 200) demo_entropy unit
              "user@example.com" "secret" (fresh_world tt)
              (mkResponse 201 (Some (VDict [("access_token", VStr "abc")])) [])
              (VDict [("access_token", VStr "abc")]) (VStr "abc")
              eq_refl eq_refl eq_refl eq_refl)
    as (s & w' & Hrun & _ & _ & Hsent).
  exists s, w'. split; [exact Hrun|]. rewrite Hsent. reflexivity.
Defined.

(** A second [refresh_robots] on the account with three robots, robots
    compared by identity: six robots. *)
Lemma refresh_robots_accumulates_witness :
  List.length
    (_robots (fst (snd (refresh_robots
                          demo_urljoin demo_error_status demo_robot_eq
                          (demo_server 200)
                          (demo_session_fetched,
                           after_fetch (robots_request demo_urljoin demo_session)
                                       3 (fresh_world tt)))))) = 6.
Proof.
  destruct (@refresh_robots_accumulates
              demo_urljoin demo_error_status demo_robot_eq (demo_server 200)
              unit demo_session_fetched
              (after_fetch (robots_request demo_urljoin demo_session) 3
                           (fresh_world tt))
              (mkResponse 200
                 (Some (VList [device "R1" "S1" "K1"; device "R2" "S2" "K2";
                               device "R3" "S3" "K3"])) [])
              [device "R1" "S1" "K1"; device "R2" "S2" "K2"; device "R3" "S3" "K3"])
    as (after & Hrun & Hlen & _).
  - intros a b H. apply Nat.eqb_eq. exact H.
  - cbn. repeat constructor.
  - reflexivity.
  - reflexivity.
  - reflexivity.
  - reflexivity.
  - rewrite Hrun. cbn [fst snd set_robots _robots]. rewrite Hlen. reflexivity.
Defined.

(** The same second [refresh_robots], robots compared by serial: the
    session is as it was. *)
Lemma refresh_robots_known_witness :
  fst (snd (refresh_robots demo_urljoin demo_error_status demo_robot_eq_serial
                           (demo_server 200)
                           (demo_session_fetched, fresh_world tt)))
  = demo_session_fetched.
Proof.
  rewrite (@refresh_robots_known_devices
             demo_urljoin demo_error_status demo_robot_eq_serial (demo_server 200)
             unit demo_session_fetched (fresh_world tt)
             (mkResponse 200
                (Some (VList [device "R1" "S1" "K1"; device "R2" "S2" "K2";
                              device "R3" "S3" "K3"])) [])
             [device "R1" "S1" "K1"; device "R2" "S2" "K2"; device "R3" "S3" "K3"]).
  - reflexivity.
  - repeat constructor.
    + exists (demo_robot 0 "R1" "S1" "K1"). split; [cbn; auto | intros; reflexivity].
    + exists (demo_robot 1 "R2" "S2" "K2"). split; [cbn; auto | intros; reflexivity].
    + exists (demo_robot 2 "R3" "S3" "K3"). split; [cbn; auto | intros; reflexivity].
  - reflexivity.
  - reflexivity.
  - reflexivity.
  - reflexivity.
Defined.

(** [maps] on the account with three robots, looked up under ["S2"]. *)
Lemma maps_lookup_witness :
  exists m,
    fst (maps demo_urljoin demo_str_of demo_error_status demo_robot_eq
              (demo_server 200) (demo_session, fresh_world tt)) = Ok m /\
    dict_get (VStr "S2") m = Some (VList [VStr "map2"]).
Proof.
  pose proof (@maps_lookup_by_serial
                demo_urljoin demo_str_of demo_error_status demo_robot_eq
                (demo_server 200) unit demo_session (fresh_world tt)
                (_robots demo_session_fetched) demo_session_fetched
                (after_fetch (robots_request demo_urljoin demo_session) 3
                             (fresh_world tt))
                [VList [VStr "map1"]; VList [VStr "map2"]; VList [VStr "map3"]]
                eq_refl) as H.
  assert (Hanswered :
            answered demo_urljoin demo_str_of demo_error_status (demo_server 200)
              (_headers demo_session_fetched)
              (sent (after_fetch (robots_request demo_urljoin demo_session) 3
                                 (fresh_world tt)))
              (_robots demo_session_fetched)
              [VList [VStr "map1"]; VList [VStr "map2"]; VList [VStr "map3"]]).
  { repeat (split; [eexists; repeat split; reflexivity |]; split; [reflexivity|]).
    exact I. }
  assert (Hdistinct :
            ForallOrdPairs (fun a b => key_eqb (serial a) (serial b) = false)
                           (_robots demo_session_fetched))
    by (repeat constructor).
  destruct (H Hanswered Hdistinct) as (m & st' & Hrun & _ & Hall & _).
  exists m. split; [rewrite Hrun; reflexivity|].
  inversion Hall as [|? ? ? ? _ Hrest]; subst.
  inversion Hrest as [|? ? ? ? H2 _]; subst.
  exact H2.
Defined.

(** The stale entry under ["S9"] outlives an access to [maps] and a
    refresh of the robots. *)
Lemma maps_entries_never_removed_witness :
  dict_get (VStr "S9")
    (_maps (fst (calls demo_urljoin demo_str_of demo_error_status demo_robot_eq
                       (demo_server 500) demo_openable demo_persistent_maps
                       [CallMaps; CallRefreshRobots; CallMaps]
                       (demo_session_stale, fresh_world tt)))) <> None.
Proof.
  apply (@maps_entries_never_removed
           demo_urljoin demo_str_of demo_error_status demo_robot_eq
           (demo_server 500) demo_openable unit demo_persistent_maps).
  cbn. discriminate.
Defined.

(** The image of the small account is written to [/tmp/42-image.png]. *)
Lemma get_map_image_file_name_witness :
  disk (snd (get_map_image demo_error_status (demo_server 200) demo_openable
                           demo_image_url (Some "/tmp") (fresh_world tt)))
  = [("/tmp/42-image.png", [x89; x50; x4e; x47])].
Proof.
  change demo_image_url
    with ("https://example.com/maps" ++ "/" ++ "42" ++ "/" ++ "image.png?sig=1")%string.
  rewrite (@get_map_image_file_name
             demo_error_status (demo_server 200) demo_openable unit
             "https://example.com/maps" "42" "image.png?sig=1"
             "42-image.png" "?sig=1" "/tmp" (fresh_world tt)
             (mkResponse 200 None [x89; x50; x4e; x47])).
  - reflexivity.
  - unfold no_slash. cbn. intuition discriminate.
  - unfold no_slash. cbn. intuition discriminate.
  - reflexivity.
  - cbn. intuition discriminate.
  - right. eexists. reflexivity.
  - reflexivity.
  - reflexivity.
  - reflexivity.
  - reflexivity.
Defined.

(** [persistent_maps] on the fetched session, with a collaborator that
    hands out [None] for every robot. *)
Lemma persistent_maps_witness :
  persistent_maps demo_urljoin demo_error_status demo_robot_eq (demo_server 200)
                  demo_persistent_maps (demo_session_fetched, fresh_world tt)
  = (Ok [(VStr "S1", VNone); (VStr "S2", VNone); (VStr "S3", VNone)],
     (demo_session_fetched, fresh_world tt)).
Proof.
  rewrite (proj1 (proj2 (proj2 (@persistent_maps_on_fetched_session
                                  demo_urljoin demo_error_status demo_robot_eq
                                  (demo_server 200) unit demo_persistent_maps
                                  demo_session_fetched (fresh_world tt) eq_refl)))
                 [VNone; VNone; VNone] tt).
  - reflexivity.
  - cbn. repeat esplit.
Defined.

(** Three calls that write no file leave the disk empty. *)
Lemma calls_write_nothing_witness :
  disk (snd (calls demo_urljoin demo_str_of demo_error_status demo_robot_eq
                   (demo_server 200) demo_openable demo_persistent_maps
                   [CallMaps; CallGetMapImage demo_image_url None; CallPersistentMaps]
                   (demo_session, fresh_world tt))) = [].
Proof.
  exact (proj2 (@calls_draw_nothing_write_nothing
                  demo_urljoin demo_str_of demo_error_status demo_robot_eq
                  (demo_server 200) demo_openable unit demo_persistent_maps
                  [CallMaps; CallGetMapImage demo_image_url None; CallPersistentMaps]
                  (demo_session, fresh_world tt))
               eq_refl).
Defined.

(** [maps] on the account with no robot. *)
Lemma maps_on_empty_account_witness :
  maps demo_urljoin demo_str_of demo_error_status demo_robot_eq
       empty_account_server (demo_session, fresh_world tt)
  = (Ok [], (demo_session,
             sent_more [robots_request demo_urljoin demo_session] (fresh_world tt))).
Proof.
  exact (@maps_on_empty_account
           demo_urljoin demo_str_of demo_error_status demo_robot_eq
           empty_account_server unit demo_session (fresh_world tt)
           (mkResponse 200 (Some (VList [])) [])
           eq_refl eq_refl eq_refl eq_refl).
Defined.

(** A slash in the query string moves the split: the file is named after
    the text around the last slash of the whole URL. *)
Example image_query_with_slash :
  disk (snd (get_map_image demo_error_status
               (fun _ _ => Some (mkResponse 200 None [x01]))
               demo_openable
               "https://example.com/maps/42/image.png?sig=ab/cd" (Some "/tmp")
               (fresh_world tt)))
  = [("/tmp/image.png", [x01])].
Proof. reflexivity. Qed.

(** Two logins in a row on the small account send different tokens. *)
Lemma login_basic_tokens_differ_witness :
  String.eqb
    (login_token demo_entropy (fresh_world tt))
    (login_token demo_entropy
       (snd (login_basic demo_urljoin demo_str_of demo_error_status
                         (demo_server 200) demo_entropy
                         "user@example.com" "secret" (fresh_world tt))))
  = false.
Proof.
  destruct (@login_basic_token_per_login
              demo_urljoin demo_str_of demo_error_status (demo_server 200)
              demo_entropy unit
              "user@example.com" "secret" "user@example.com" "secret"
              (fresh_world tt))
    as (_ & _ & _ & _ & Hsame & _).
  match goal with
  | |- String.eqb ?a ?b = false => destruct (String.eqb a b) eqn:E
  end; [|reflexivity].
  apply String.eqb_eq in E.
  pose proof (proj1 Hsame E 0 (Nat.lt_0_succ 63)) as H.
  vm_compute in H. discriminate H.
Defined.
